(** * stock_analysis: indicator.py and unit_strategy.py

    A shallow embedding of the indicator arithmetic
    ([Indicator._exponential_moving_avarage]) and of the momentum pipeline
    ([UnitStrategy._parallel_momentum], [UnitStrategy.momentum_strategy],
    [UnitStrategy.momentum_with_ema_strategy]).

    Conventions.
    - Python floats are embedded as exact rationals ([Q]); rounding is not
      modelled.  A float that is not a number is the separate value [NaN]
      where the code can meet one (cells of a data frame).
    - Python ints are [Z].
    - A Python call either returns or raises: [result A].
    - Collaborators whose source is not part of the two files (the data
      provider, the date helper, the return formula, the clock, the number
      of cores) are fields of an environment record. *)

From Stdlib Require Import ZArith QArith List String Ascii Bool Lia Lqa.
From Stdlib Require Import Permutation Sorted.
Import ListNotations.

Set Implicit Arguments.
Open Scope Z_scope.

(** ** Python values, exceptions and the error monad *)

Module Py.

(** The exception classes the two files can meet. *)
Inductive exn : Type :=
| IndexError
| KeyError
| ValueError
| MergeError            (* pandas.errors.MergeError, a ValueError *)
| TypeError
| ZeroDivisionError
| UnboundLocalError
| AttributeError
| OSError.

Definition exn_eqb (a b : exn) : bool :=
  match a, b with
  | IndexError, IndexError | KeyError, KeyError | ValueError, ValueError
  | MergeError, MergeError | TypeError, TypeError
  | ZeroDivisionError, ZeroDivisionError
  | UnboundLocalError, UnboundLocalError
  | AttributeError, AttributeError | OSError, OSError => true
  | _, _ => false
  end.

(** [isinstance(e, cls)] on the classes above: every class is an instance
    of itself, and [MergeError] derives from [ValueError]. *)
Definition isinstance (e cls : exn) : bool :=
  exn_eqb e cls ||
  match e, cls with
  | MergeError, ValueError => true
  | _, _ => false
  end.

Inductive result (A : Type) : Type :=
| Ok (a : A)
| Raise (e : exn).
Arguments Ok {A} a.
Arguments Raise {A} e.

Definition bind {A B} (c : result A) (k : A -> result B) : result B :=
  match c with
  | Ok a => k a
  | Raise e => Raise e
  end.

Definition is_ok {A} (c : result A) : bool :=
  match c with Ok _ => true | Raise _ => false end.

(** [try: c except classes: h] *)
Definition try_except {A} (c : result A) (classes : list exn)
           (h : result A) : result A :=
  match c with
  | Ok a => Ok a
  | Raise e => if existsb (isinstance e) classes then h else Raise e
  end.

(** [len(l)] *)
Definition len {A} (l : list A) : Z := Z.of_nat (List.length l).

(** [l[i]] on a list: negative indices count from the end, anything out
    of range raises [IndexError]. *)
Definition getitem {A} (l : list A) (i : Z) : result A :=
  let j := if i <? 0 then i + len l else i in
  if (j <? 0) || (len l <=? j) then Raise IndexError
  else match nth_error l (Z.to_nat j) with
       | Some x => Ok x
       | None => Raise IndexError
       end.

(** [l[:k]]: a slice never raises; its bound is clipped. *)
Definition slice_to {A} (l : list A) (k : Z) : list A :=
  let stop := if k <? 0 then Z.max 0 (k + len l) else Z.min k (len l) in
  firstn (Z.to_nat stop) l.

(** [range(a, b)] *)
Definition range (a b : Z) : list Z :=
  map (fun i => a + Z.of_nat i) (seq 0 (Z.to_nat (b - a))).

(** [sum(l)]: left to right from 0. *)
Definition sum (l : list Q) : Q := fold_left Qplus l 0%Q.

(** [a / b] *)
Definition truediv (a b : Q) : result Q :=
  if Qeq_bool b 0%Q then Raise ZeroDivisionError else Ok (a / b)%Q.

End Py.

Import Py.

Declare Scope py_scope.
Delimit Scope py_scope with py.
Notation "x <- c ;; k" := (bind c (fun x => k))
  (at level 61, c at next level, right associativity) : py_scope.
Open Scope py_scope.

(** ** indicator.py *)

Module Indicator.

(** The two locals the loop of [_exponential_moving_avarage] assigns.
    [ema] is unbound until the body has run once. *)
Record ema_locals : Type := mk_locals {
  ema_pre : Q;
  ema : option Q
}.

(** The indices [for idx in range(1, len(data)-50)] goes through. *)
Definition loop_indices (data : list Q) : list Z :=
  range 1 (len data - 50).

(** One application of the recurrence to the observation [x]. *)
Definition ema_step (mf : Q) (ema_pre x : Q) : Q :=
  (x * mf + ema_pre * (1 - mf))%Q.

(** The seed [ema0] from the first [period] observations and [data[period]]. *)
Definition ema_seed (mf sma0 x : Q) : Q :=
  (x * mf + sma0 * (1 - mf))%Q.

(** The body of the loop, run over the remaining indices:
<<
      ema = (data[idx + 50] * mf) + (ema_pre * (1 - mf))
      ema_pre = ema
      if idx == (len(data) - 50):
          break
>> *)
Fixpoint ema_loop (data : list Q) (mf : Q) (idxs : list Z)
         (st : ema_locals) : result ema_locals :=
  match idxs with
  | [] => Ok st
  | idx :: rest =>
      x <- getitem data (idx + 50) ;;
      let e := ema_step mf (ema_pre st) x in
      let st' := mk_locals e (Some e) in
      if idx =? len data - 50 then Ok st'
      else ema_loop data mf rest st'
  end.

(** [Indicator._exponential_moving_avarage(data, period, smoothing_factor)]
    with [data] a list. *)
Definition _exponential_moving_avarage (data : list Q) (period : Z)
           (smoothing_factor : Z) : result Q :=
  mf <- truediv (inject_Z smoothing_factor) (inject_Z (1 + period)) ;;
  sma0 <- truediv (sum (slice_to data period)) (inject_Z period) ;;
  x <- getitem data period ;;
  let ema0 := ema_seed mf sma0 x in
  st <- ema_loop data mf (loop_indices data) (mk_locals ema0 None) ;;
  match ema st with
  | Some e => Ok e
  | None => Raise UnboundLocalError
  end.

(** The recurrence as the specification words it: after the same seed,
    [idx] starts at 1 and advances by 50 while [idx + 50 < len(series)];
    the final [ema_prev] is returned. *)
Fixpoint stride50_loop (fuel : nat) (data : list Q) (k : Q) (idx : Z)
         (ema_prev : Q) : Q :=
  match fuel with
  | O => ema_prev
  | S fuel' =>
      if idx + 50 <? len data then
        match getitem data (idx + 50) with
        | Ok x => stride50_loop fuel' data k (idx + 50)
                                (ema_step k ema_prev x)
        | Raise _ => ema_prev
        end
      else ema_prev
  end.

Definition ema_stride50_spec (data : list Q) (period : Z)
           (smoothing : Z) : result Q :=
  k <- truediv (inject_Z smoothing) (inject_Z (1 + period)) ;;
  sma0 <- truediv (sum (slice_to data period)) (inject_Z period) ;;
  x <- getitem data period ;;
  let ema0 := ema_seed k sma0 x in
  Ok (stride50_loop (List.length data) data k 1 ema0).

End Indicator.


(** ** What the code uses of [datetime] and of a data frame *)

Module Frame.

(** A calendar day: a [datetime.date], or a [datetime.datetime] or pandas
    [Timestamp] at midnight. *)
Record date : Type := mk_date {
  year : Z;
  month : Z;
  day : Z
}.

Definition is_leap (y : Z) : bool :=
  (y mod 4 =? 0) && (negb (y mod 100 =? 0) || (y mod 400 =? 0)).

Definition days_in_month (y m : Z) : Z :=
  if m =? 2 then (if is_leap y then 29 else 28)
  else if (m =? 4) || (m =? 6) || (m =? 9) || (m =? 11) then 30
  else 31.

Definition days_before_year (y : Z) : Z :=
  let p := y - 1 in p * 365 + p / 4 - p / 100 + p / 400.

Definition days_before_month (y m : Z) : Z :=
  nth (Z.to_nat m) [0; 0; 31; 59; 90; 120; 151; 181; 212; 243; 273; 304; 334] 0
  + (if (2 <? m) && is_leap y then 1 else 0).

(** [d.toordinal()] *)
Definition toordinal (d : date) : Z :=
  days_before_year (year d) + days_before_month (year d) (month d) + day d.

(** [(a - b).days] *)
Definition days_between (a b : date) : Z := toordinal a - toordinal b.

(** [d - relativedelta(years=1)]: the year before, the day clipped to the
    length of the month. *)
Definition minus_one_year (d : date) : date :=
  let y := year d - 1 in
  mk_date y (month d) (Z.min (day d) (days_in_month y (month d))).

Definition digit (n : Z) : ascii := ascii_of_nat (48 + Z.to_nat (n mod 10)).

Definition pad2 (n : Z) : string :=
  String (digit (n / 10)) (String (digit n) EmptyString).

Definition pad4 (n : Z) : string :=
  String (digit (n / 1000)) (String (digit (n / 100)) (pad2 n)).

(** [d.strftime('%d-%m-%Y')] *)
Definition strftime (d : date) : string :=
  (pad2 (day d) ++ "-" ++ pad2 (month d) ++ "-" ++ pad4 (year d))%string.

(** A numeric cell: [pd.NA], a float that is not a number, or a float. *)
Inductive num : Type :=
| NA
| NaN
| Num (q : Q).

(** [pd.isna] on a numeric cell. *)
Definition isna (c : num) : bool :=
  match c with
  | Num _ => false
  | _ => true
  end.

(** A row of the frame the provider returns, after [reset_index]: column 0
    is [Date], and [Close] is the only other column the code reads. *)
Record row : Type := mk_row {
  Date : date;
  Close : num
}.

Definition frame : Type := list row.

(** [df.iloc[i]]: [IndexError] when the position is out of bounds. *)
Definition iloc (df : frame) (i : Z) : result row := getitem df i.

End Frame.


Import Frame.

(** ** The data-frame operations the strategies call *)

Module DataFrame.

Section Rows.
Variable A : Type.

(** [df.dropna()]: the rows without an absent cell. *)
Definition dropna (has_na : A -> bool) (df : list A) : list A :=
  filter (fun r => negb (has_na r)) df.

(** The order of two numbers; other cells never reach a comparison. *)
Definition num_leb (a b : num) : bool :=
  match a, b with
  | Num x, Num y => Qle_bool x y
  | _, _ => true
  end.

(** The ascending sort of the keys.  pandas hands the keys to numpy's
    quicksort, which promises no order among equal keys.  The model takes
    the insertion sort that quicksort is on arrays of at most 16 keys; on
    longer arrays the order it gives to equal keys is the model's own, and
    nothing below is stated about it: the properties of the sort are that
    it permutes the rows, that it orders them by the key, and that it
    looks at the key alone. *)
Fixpoint insert_by (key : A -> num) (x : A) (l : list A) : list A :=
  match l with
  | [] => [x]
  | y :: t => if num_leb (key x) (key y) then x :: y :: t
              else y :: insert_by key x t
  end.

Fixpoint sort_ascending (key : A -> num) (l : list A) : list A :=
  match l with
  | [] => []
  | x :: t => insert_by key x (sort_ascending key t)
  end.

(** [df.sort_values(by=[column], ascending=False)] with one column, as
    pandas' [nargsort] does it: the rows whose key is present are reversed,
    sorted ascending, and reversed again; the rows whose key is absent come
    last.  No other column takes part. *)
Definition sort_values_descending (key : A -> num) (df : list A) : list A :=
  let non_nans := filter (fun r => negb (isna (key r))) df in
  let nans := filter (fun r => isna (key r)) df in
  rev (sort_ascending key (rev non_nans)) ++ nans.

(** [later] is not above [earlier] in the order of the key. *)
Definition not_above (key : A -> num) (earlier later : A) : Prop :=
  num_leb (key later) (key earlier) = true.

(** The key of the row is a number. *)
Definition present (key : A -> num) (r : A) : Prop := isna (key r) = false.

(** [df.head(n)]: the first [n] rows, or all but the last [-n]. *)
Definition head (n : Z) (df : list A) : list A :=
  if n <? 0 then firstn (Z.to_nat (len df + n)) df
  else firstn (Z.to_nat n) df.

End Rows.

(** [Series.is_unique] on a column of names. *)
Fixpoint is_unique (keys : list string) : bool :=
  match keys with
  | [] => true
  | k :: t => negb (existsb (String.eqb k) t) && is_unique t
  end.

(** [left.merge(right, on=key, validate='1:1')], an inner join: the keys of
    both sides are checked for uniqueness first, then every left row is
    paired with the right rows of the same key. *)
Definition merge_one_to_one (L R : Type) (lkey : L -> string)
           (rkey : R -> string) (left_ : list L) (right_ : list R)
  : result (list (L * R)) :=
  if is_unique (map lkey left_) && is_unique (map rkey right_)
  then Ok (flat_map
             (fun l => map (pair l)
                           (filter (fun r => String.eqb (lkey l) (rkey r)) right_))
             left_)
  else Raise MergeError.

End DataFrame.

(** ** multiprocessing.Pool *)

Module Multiprocessing.

Record Pool : Type := mk_pool {
  processes : Z
}.

(** [multiprocessing.Pool(processes)] *)
Definition Pool_init (n : Z) : result Pool :=
  if n <? 1 then Raise ValueError else Ok (mk_pool n).

(** The chunk size [Pool._map_async] chooses when none is given:
<<
      chunksize, extra = divmod(len(iterable), len(self._pool) * 4)
      if extra: chunksize += 1
      if len(iterable) == 0: chunksize = 0
>> *)
Definition map_chunksize (pool : Pool) (length_ : Z) : Z :=
  if length_ =? 0 then 0
  else if length_ mod (processes pool * 4) =? 0
       then length_ / (processes pool * 4)
       else length_ / (processes pool * 4) + 1.

Section Map.
Variables A B : Type.

(** [Pool._get_tasks]: the iterable cut into batches of [size]. *)
Fixpoint get_tasks (fuel size : nat) (it : list A) : list (list A) :=
  match fuel with
  | O => []
  | S fuel' =>
      match firstn size it with
      | [] => []
      | x => x :: get_tasks fuel' size (skipn size it)
      end
  end.

(** What a worker does with one batch: the calls in order, the first
    exception ending the batch. *)
Fixpoint run_chunk (func : A -> result B) (chunk : list A) : result (list B) :=
  match chunk with
  | [] => Ok []
  | a :: rest =>
      b <- func a ;;
      bs <- run_chunk func rest ;;
      Ok (b :: bs)
  end.

(** [l[a:b] = new] *)
Definition slice_assign (T : Type) (l : list T) (a b : nat) (new : list T)
  : list T :=
  firstn a l ++ new ++ skipn b l.

(** [MapResult._value]: the list of slots, [None] until a batch fills
    them, or the first exception reported ([_success] is false exactly
    then). *)
Definition MapResult : Type := result (list (option B)).

(** [MapResult.__init__]: [[None] * length]. *)
Definition MapResult_init (length_ : nat) : MapResult :=
  Ok (repeat None length_).

(** [MapResult._set(i, (success, result))] *)
Definition _set (chunksize : nat) (i : nat) (res : result (list B))
           (mr : MapResult) : MapResult :=
  match mr, res with
  | Ok value, Ok vals =>
      Ok (slice_assign value (i * chunksize) ((i + 1) * chunksize)
                       (map Some vals))
  | Ok _, Raise e => Raise e
  | Raise e, _ => Raise e
  end.

(** The batches complete one at a time in an order the pool does not
    fix.  [sched t] names, among the batches still pending at step [t], the
    one that reports next. *)
Fixpoint complete (func : A -> result B) (chunksize : nat)
         (sched : nat -> nat) (t fuel : nat)
         (pending : list (nat * list A)) (mr : MapResult) : MapResult :=
  match fuel with
  | O => mr
  | S fuel' =>
      let k := (sched t mod List.length pending)%nat in
      match nth_error pending k with
      | None => mr
      | Some (i, chunk) =>
          complete func chunksize sched (S t) fuel'
                   (firstn k pending ++ skipn (S k) pending)
                   (_set chunksize i (run_chunk func chunk) mr)
      end
  end.

(** The values of the slots that have been filled. *)
Definition filled (value : list (option B)) : list B :=
  flat_map (fun o => match o with Some b => [b] | None => [] end) value.

(** [MapResult.get()], once every batch has reported. *)
Definition get (mr : MapResult) : result (list B) :=
  match mr with
  | Ok value => Ok (filled value)
  | Raise e => Raise e
  end.

(** Every batch but the last is full, and none is longer than [size]. *)
Fixpoint shape (size : nat) (cs : list (list A)) : Prop :=
  match cs with
  | [] => True
  | c :: t =>
      (List.length c <= size)%nat /\ (t <> [] -> List.length c = size)
      /\ shape size t
  end.

(** The values a batch yields (when it raises nothing). *)
Definition val_of (func : A -> result B) (c : list A) : list B :=
  match run_chunk func c with Ok v => v | Raise _ => [] end.

(** The slots of the batches from number [base] on: holes for a pending
    batch, its values for one that has reported. *)
Fixpoint segs (func : A -> result B) (pend : nat -> bool) (base : nat)
         (cs : list (list A)) : list (list (option B)) :=
  match cs with
  | [] => []
  | c :: t =>
      (if pend base then repeat None (List.length c)
       else map Some (val_of func c)) :: segs func pend (S base) t
  end.

(** Whether batch number [j] is among the pending ones. *)
Definition is_pending (pending : list (nat * list A)) (j : nat) : bool :=
  existsb (Nat.eqb j) (map fst pending).

(** [pool.starmap(func, iterable)] *)
Definition starmap (pool : Pool) (sched : nat -> nat)
           (func : A -> result B) (iterable : list A) : result (list B) :=
  let chunksize := Z.to_nat (map_chunksize pool (len iterable)) in
  let task_batches := get_tasks (List.length iterable) chunksize iterable in
  let jobs := combine (seq 0 (List.length task_batches)) task_batches in
  get (complete func chunksize sched 0 (List.length jobs) jobs
                (MapResult_init (List.length iterable))).

End Map.

End Multiprocessing.

(** ** The collaborators *)

Module Collaborators.

(** The functions the two files import from the rest of the package, the
    clock, and the machine the run is on. *)
Record Env : Type := mk_env {
  (* DataRetrive.single_company_specific(company_name, start_date, end_date) *)
  single_company_specific : string -> date -> date -> result frame;
  (* DataRetrive.single_company_complete(company_name) *)
  single_company_complete : string -> result frame;
  (* get_appropriate_date_momentum(company_df, company, verbosity) *)
  get_appropriate_date_momentum : frame -> string -> Z -> result (date * num);
  (* annualized_rate_of_return(end_date, start_date, duration) *)
  annualized_rate_of_return : num -> num -> Q -> result num;
  (* datetime.datetime.now() *)
  now : date;
  (* datetime.datetime.strptime(s, '%d/%m/%Y') *)
  strptime : string -> result date;
  (* multiprocessing.cpu_count() *)
  cpu_count : Z;
  (* the company entry of the yaml file at a path *)
  yaml_company : string -> result (list string)
}.

(** A value passed by keyword. *)
Inductive arg : Type :=
| ArgStr (s : string)
| ArgInt (z : Z)
| ArgBool (b : bool)
| ArgNames (l : list string)
| ArgPair (a b : Z)
| ArgDate (d : date).

Definition mem (k : string) (l : list string) : bool :=
  existsb (String.eqb k) l.

(** Binding a call made with keywords only to a signature: a keyword the
    function does not declare, or a declared parameter without default that
    the call leaves out, is a [TypeError]. *)
Definition bind_keywords (params required : list string)
           (kwargs : list (string * arg)) : result (list (string * arg)) :=
  if forallb (fun kv => mem (fst kv) params) kwargs
     && forallb (fun r => mem r (map fst kwargs)) required
  then Ok kwargs
  else Raise TypeError.

Fixpoint lookup (k : string) (kwargs : list (string * arg)) : option arg :=
  match kwargs with
  | [] => None
  | (k', v) :: t => if String.eqb k k' then Some v else lookup k t
  end.

End Collaborators.

Import Collaborators.

(** ** indicator.py: the class *)

Module IndicatorObject.

Import Indicator.

(** An [Indicator]: [self.path], and [self.data['company']] when the file
    name mentions yaml. *)
Record Indicator : Type := mk_indicator {
  path : string;
  data : option (list string)
}.

(** [os.path.split(p)[-1]] *)
Fixpoint basename_from (p acc : string) : string :=
  match p with
  | EmptyString => acc
  | String c rest =>
      if Ascii.eqb c "/"%char then basename_from rest EmptyString
      else basename_from rest (acc ++ String c EmptyString)%string
  end.

Definition basename (p : string) : string := basename_from p EmptyString.

(** [needle in s] *)
Fixpoint contains (needle s : string) : bool :=
  String.prefix needle s ||
  match s with
  | EmptyString => false
  | String _ rest => contains needle rest
  end.

(** [Indicator(...)] called with keywords: [__init__(self, path: str)]. *)
Definition Indicator_init (E : Env) (kwargs : list (string * arg))
  : result Indicator :=
  bound <- bind_keywords ["path"%string] ["path"%string] kwargs ;;
  match lookup "path" bound with
  | Some (ArgStr p) =>
      if contains "yaml" (basename p)
      then d <- yaml_company E p ;; Ok (mk_indicator p (Some d))
      else Ok (mk_indicator p None)
  | _ => Raise TypeError
  end.

(** A row of [ema_indicator_df]. *)
Record EMARecord : Type := mk_ema_record {
  ema_company : string;
  ema50 : Q;
  ema200 : Q;
  action : string
}.

(** The [Close] column as the method hands it to the moving average.  When
    no close is missing the frame is left as it is, and these are all its
    closes.  When one is missing the method drops the rows that miss a cell
    in any column; a row is modelled with its [Date] and its [Close] only,
    so the rows dropped here are those whose close is missing, which are
    the rows the method drops when the other columns are complete. *)
Definition closes (df : frame) : list Q :=
  flat_map (fun r => match Close r with Num q => [q] | _ => [] end) df.

(** The [try] block of [ema_indicator] for one company. *)
Definition ema_row (company : string) (df : frame) : result EMARecord :=
  e50 <- _exponential_moving_avarage (closes df) 50 2 ;;
  e200 <- _exponential_moving_avarage (closes df) 200 2 ;;
  Ok (mk_ema_record company e50 e200
                    (if Qle_bool e50 e200 then "sell" else "buy")).

(** The loop of [ema_indicator]: the table built so far and the companies
    recorded as invalid.  The fetch is outside the [try]; [except Exception]
    takes every failure of the block. *)
Fixpoint ema_rows (E : Env) (companies : list string)
         (table : list EMARecord) (invalid : list string)
  : result (list EMARecord * list string) :=
  match companies with
  | [] => Ok (table, invalid)
  | company :: rest =>
      df <- single_company_complete E (company ++ ".NS") ;;
      match ema_row company df with
      | Ok r => ema_rows E rest (table ++ [r]) invalid
      | Raise _ => ema_rows E rest table (invalid ++ [company])
      end
  end.

(** [ind.ema_indicator(...)] called with keywords: [ema_indicator(self, export_path='.',
    verbosity=1)].  The table goes to a CSV file, which is the first
    component; the call itself returns nothing, the second. *)
Definition ema_indicator (E : Env) (self : Indicator)
           (kwargs : list (string * arg)) : result (list EMARecord * unit) :=
  _ <- bind_keywords ["export_path"%string; "verbosity"%string] [] kwargs ;;
  match data self with
  | None => Raise AttributeError
  | Some companies =>
      out <- ema_rows E companies [] [] ;;
      Ok (fst out, tt)
  end.

End IndicatorObject.

Import IndicatorObject.

(** ** unit_strategy.py *)

Module Strategy.

Import DataFrame Multiprocessing.

(** The dict [_parallel_momentum] returns, one field per key.  A date field
    holds a formatted string, or [None] for [pd.NA]. *)
Record MomentumRecord : Type := mk_record {
  company : string;
  yearly_start_date : option string;
  yearly_start_date_close : num;
  yearly_end_date : option string;
  yearly_end_date_close : num;
  return_yearly : num;
  monthly_start_date : option string;
  monthly_start_date_close : num;
  monthly_end_date : option string;
  monthly_end_date_close : num;
  return_monthly : num
}.

(** The names the [try] block of [_parallel_momentum] binds. *)
Record momentum_locals : Type := mk_momentum_locals {
  company_df : frame;
  ar_yearly : num;
  ar_monthly : num;
  monthly_start : option string
}.

(** The body of the [try] block, in evaluation order. *)
Definition try_block (E : Env) (company : string) (start end_ : date)
           (verbosity : Z) : result momentum_locals :=
  df <- single_company_specific E (company ++ ".NS") start end_ ;;
  last <- iloc df (-1) ;;
  first <- iloc df 0 ;;
  yearly <- annualized_rate_of_return E (Close last) (Close first) 1%Q ;;
  last_m <- iloc df (-1) ;;
  anchor <- get_appropriate_date_momentum E df company verbosity ;;
  last_d <- iloc df (-1) ;;
  back30 <- iloc df (-30) ;;
  let duration :=
    (inject_Z (days_between (Date last_d) (Date back30)) / 30)%Q in
  monthly <- annualized_rate_of_return E (Close last_m) (snd anchor) duration ;;
  anchor0 <- get_appropriate_date_momentum E df company 0 ;;
  Ok (mk_momentum_locals df yearly monthly (Some (strftime (fst anchor0)))).

(** The classes of [except (IndexError, KeyError, ValueError)]. *)
Definition caught_classes : list exn := [IndexError; KeyError; ValueError].

Definition caught (e : exn) : bool := existsb (isinstance e) caught_classes.

(** The frame the handler builds: thirty rows dated 1 January 1000, closes
    [pd.NA]. *)
Definition sentinel_frame : frame := repeat (mk_row (mk_date 1000 1 1) NA) 30.

(** The bindings the handler leaves. *)
Definition except_block : momentum_locals :=
  mk_momentum_locals sentinel_frame NA NA None.

(** [UnitStrategy._parallel_momentum(company, start, end, verbosity)] *)
Definition _parallel_momentum (E : Env) (company : string) (start end_ : date)
           (verbosity : Z) : result MomentumRecord :=
  loc <- try_except (try_block E company start end_ verbosity)
                    caught_classes (Ok except_block) ;;
  let df := company_df loc in
  r0 <- iloc df 0 ;;
  r0' <- iloc df 0 ;;
  r1 <- iloc df (-1) ;;
  r1' <- iloc df (-1) ;;
  r30 <- iloc df (-30) ;;
  r1m <- iloc df (-1) ;;
  r1m' <- iloc df (-1) ;;
  Ok (mk_record company
                (Some (strftime (Date r0))) (Close r0')
                (Some (strftime (Date r1))) (Close r1')
                (ar_yearly loc)
                (monthly_start loc) (Close r30)
                (Some (strftime (Date r1m))) (Close r1m')
                (ar_monthly loc)).

(** The record of a company whose evaluation ended in the handler. *)
Definition unusable_record (company : string) : MomentumRecord :=
  mk_record company
            (Some "01-01-1000"%string) NA
            (Some "01-01-1000"%string) NA
            NA
            None NA
            (Some "01-01-1000"%string) NA
            NA.

Definition date_isna (c : option string) : bool :=
  match c with Some _ => false | None => true end.

(** A row [dropna] removes: one with an absent cell in any column. *)
Definition has_na (r : MomentumRecord) : bool :=
  date_isna (yearly_start_date r) || isna (yearly_start_date_close r)
  || date_isna (yearly_end_date r) || isna (yearly_end_date_close r)
  || isna (return_yearly r)
  || date_isna (monthly_start_date r) || isna (monthly_start_date_close r)
  || date_isna (monthly_end_date r) || isna (monthly_end_date_close r)
  || isna (return_monthly r).

(** What a strategy leaves: the rows written to the CSV file when [save]
    is true (the call then returns nothing), the rows returned otherwise. *)
Inductive outcome (T : Type) : Type :=
| Saved (csv : T)
| Returned (df : T).
Arguments Saved {T} csv.
Arguments Returned {T} df.

Definition rows_of (T : Type) (o : outcome T) : T :=
  match o with Saved r => r | Returned r => r end.

(** [end_date] parsed: today's date, or the string read as dd/mm/yyyy. *)
Definition parse_end_date (E : Env) (end_date : string) : result date :=
  if String.eqb end_date "today" then Ok (now E) else strptime E end_date.

(** [pd.DataFrame(result)] followed by [dropna] and [sort_values]: a frame
    built from no record has no column, and sorting it by [return_yearly]
    is a [KeyError]. *)
Definition rank (result_ : list MomentumRecord) : result (list MomentumRecord) :=
  match result_ with
  | [] => Raise KeyError
  | _ => Ok (sort_values_descending return_yearly (dropna has_na result_))
  end.

(** [UnitStrategy.momentum_strategy(end_date, top_company_count, save,
    export_path, verbosity)], for the companies of [self.data['company']]
    and a completion order [sched] of the pool. *)
Definition momentum_strategy (E : Env) (sched : nat -> nat)
           (self_data : list string) (end_date : string)
           (top_company_count : Z) (save : bool) (verbosity : Z)
  : result (outcome (list MomentumRecord)) :=
  end_ <- parse_end_date E end_date ;;
  let start := minus_one_year end_ in
  pool <- Pool_init (cpu_count E - 1) ;;
  result_ <- starmap pool sched
                     (fun company =>
                        _parallel_momentum E company start end_ verbosity)
                     self_data ;;
  momentum_df <- rank result_ ;;
  if save then Ok (Saved (head top_company_count momentum_df))
  else Ok (Returned (head top_company_count momentum_df)).

(** [momentum_df.merge(ema_df, on='company', validate='1:1')]; a right
    operand that is not a frame is a [TypeError]. *)
Definition merge (momentum_df : list MomentumRecord)
           (ema_df : option (list EMARecord))
  : result (list (MomentumRecord * EMARecord)) :=
  match ema_df with
  | None => Raise TypeError
  | Some ema_rows_ => merge_one_to_one company ema_company momentum_df ema_rows_
  end.

(** The value a call that returns nothing leaves in [ema_df]. *)
Definition returned_frame (ret : unit) : option (list EMARecord) := None.

(** [UnitStrategy.momentum_with_ema_strategy(end_date, top_company_count,
    ema_canditate, save, export_path, verbosity)] *)
Definition momentum_with_ema_strategy (E : Env) (sched : nat -> nat)
           (self_data : list string) (end_date : string)
           (top_company_count : Z) (ema_canditate : Z * Z) (save : bool)
           (verbosity : Z)
  : result (outcome (list (MomentumRecord * EMARecord))) :=
  m <- momentum_strategy E sched self_data end_date top_company_count
                         false verbosity ;;
  momentum_df <- match m with
                 | Returned df => Ok df
                 | Saved _ => Raise AttributeError
                 end ;;
  ind <- Indicator_init E [("company_name"%string,
                            ArgNames (map company momentum_df))] ;;
  cutoff_date <- (if String.eqb end_date "today" then Ok (ArgStr end_date)
                  else d <- strptime E end_date ;; Ok (ArgDate d)) ;;
  ema_out <- ema_indicator E ind
               [("ema_canditate"%string,
                 ArgPair (fst ema_canditate) (snd ema_canditate));
                ("cutoff_date"%string, cutoff_date);
                ("save"%string, ArgBool false);
                ("verbosity"%string, ArgInt verbosity)] ;;
  momentum_ema_df <- merge momentum_df (returned_frame (snd ema_out)) ;;
  if save then Ok (Saved momentum_ema_df) else Ok (Returned momentum_ema_df).

(** The same collaborators on a machine with [n] cores. *)
Definition with_cores (E : Env) (n : Z) : Env :=
  mk_env (single_company_specific E) (single_company_complete E)
         (get_appropriate_date_momentum E) (annualized_rate_of_return E)
         (now E) (strptime E) n (yaml_company E).

(** What a run leaves when it does not raise. *)
Definition output_of (T : Type) (r : result T) : option T :=
  match r with Ok o => Some o | Raise _ => None end.

(** The default of [top_company_count]. *)
Definition default_top_company_count : Z := 20.

End Strategy.

(** ** A concrete environment for the examples *)

Module Examples.

Import Strategy.

(** Thirty daily rows from 1 January 2020 to 31 January 2020, 2 January
    missing, the close rising from [first_close] to [last_close] on the
    last day. *)
Definition january (first_close last_close : Q) : frame :=
  mk_row (mk_date 2020 1 1) (Num first_close)
  :: map (fun d => mk_row (mk_date 2020 1 d) (Num first_close)) (range 3 31)
  ++ [mk_row (mk_date 2020 1 31) (Num last_close)].

(** The provider of the examples: four listed tickers with a month of
    data, one with a single row, one whose first close is zero, one the
    provider does not know, and one for which the connection fails. *)
Definition example_provider (name : string) (start end_ : date)
  : result frame :=
  if String.eqb name "A.NS" then Ok (january 100 121)
  else if String.eqb name "B.NS" then Ok (january 100 121)
  else if String.eqb name "C.NS" then Ok (january 100 150)
  else if String.eqb name "D.NS" then Ok (january 100 110)
  else if String.eqb name "SHORT.NS"
       then Ok [mk_row (mk_date 2020 1 31) (Num 100)]
  else if String.eqb name "ZERO.NS" then Ok (january 0 121)
  else if String.eqb name "DOWN.NS" then Raise OSError
  else Raise KeyError.

(** Modelled from the spec: [AnnualizedReturn(startPrice, endPrice,
    durationYears)] of section 4.1, whose source
    ([utils/formula_helpers.py]) is not among the files:
    [(endPrice/startPrice)^(1/durationYears) - 1], failing with a division
    by zero when the start price is 0, and not a number when a price is.
    The value is rational when [1/durationYears] is a whole number; at any
    other duration it is outside [Q] and is left as [NaN] here: the
    examples call the formula at a duration of one year only. *)
Definition example_annualized_rate_of_return (end_price start_price : num)
           (duration : Q) : result num :=
  match end_price, start_price with
  | Num e, Num s =>
      if Qeq_bool s 0 then Raise ZeroDivisionError
      else if Qeq_bool duration 0 then Raise ZeroDivisionError
      else if (Qnum (Qred duration) =? 1)
           then Ok (Num (Qred (Qpower (e / s) (Zpos (Qden (Qred duration))) - 1)))
           else Ok NaN
  | _, _ => Ok NaN
  end.

(** Modelled from the spec: [findMonthlyAnchor(series)] of section 4.2,
    whose source ([utils/helpers.py]) is not among the files: the date and
    the close of the point thirty rows before the end. *)
Definition example_get_appropriate_date_momentum (df : frame)
           (company : string) (verbosity : Z) : result (date * num) :=
  r <- iloc df (-30) ;;
  Ok (Date r, Close r).

Definition example_strptime (s : string) : result date :=
  if String.eqb s "31/01/2020" then Ok (mk_date 2020 1 31)
  else Raise ValueError.

Definition example_env (cores : Z) : Env :=
  mk_env example_provider
         (fun name => example_provider name (mk_date 1 1 1) (mk_date 1 1 1))
         example_get_appropriate_date_momentum
         example_annualized_rate_of_return
         (mk_date 2020 1 31)
         example_strptime
         cores
         (fun _ => Raise OSError).

(** Two completion orders: first pending batch first, last pending batch
    first. *)
Definition in_order (t : nat) : nat := O.

Definition last_first (t : nat) : nat := 1000%nat.

Definition series53 : list Q := (repeat 0%Q 52 ++ [1%Q])%list.

(** The year the examples look back over. *)
Definition year_start : date := mk_date 2019 1 31.

Definition year_end : date := mk_date 2020 1 31.

Definition watch_list : list string :=
  ["D"; "B"; "NOPE"; "A"; "C"; "SHORT"]%string.

(** The momentum table of two listed companies, and two EMA tables for
    it: one with each company once, one with a company twice. *)
Definition momentum_table : list MomentumRecord :=
  match Multiprocessing.run_chunk
          (fun c => _parallel_momentum (example_env 4) c year_start year_end 1)
          ["A"; "C"]%string with
  | Ok rs => rs
  | Raise _ => []
  end.

Definition ema_table : list EMARecord :=
  [mk_ema_record "C" 2 1 "buy"; mk_ema_record "A" 1 2 "sell"].

Definition ema_table_twice : list EMARecord :=
  [mk_ema_record "C" 2 1 "buy"; mk_ema_record "A" 1 2 "sell";
   mk_ema_record "C" 2 1 "buy"].

End Examples.

(** ** indicator.py: the volume indicator *)

Module VolumeIndicator.

(** A row of the frame the provider returns, with the columns
    [volume_indicator_n_days] reads: the index [Date], [Close] and
    [Volume]. *)
Record vrow : Type := mk_vrow {
  VDate : date;
  VClose : num;
  Volume : num
}.

Definition vframe : Type := list vrow.

(** The day before, and the day after. *)
Definition pred_day (d : date) : date :=
  if 1 <? day d then mk_date (year d) (month d) (day d - 1)
  else if 1 <? month d
       then mk_date (year d) (month d - 1) (days_in_month (year d) (month d - 1))
       else mk_date (year d - 1) 12 31.

Definition succ_day (d : date) : date :=
  if day d <? days_in_month (year d) (month d)
  then mk_date (year d) (month d) (day d + 1)
  else if month d <? 12 then mk_date (year d) (month d + 1) 1
       else mk_date (year d + 1) 1 1.

(** [d - relativedelta(days=n)] *)
Definition days_before (d : date) (n : Z) : date :=
  if n <? 0 then Nat.iter (Z.to_nat (- n)) succ_day d
  else Nat.iter (Z.to_nat n) pred_day d.

(** [d.strftime('%m-%d-%Y')] *)
Definition strftime_mdy (d : date) : string :=
  (pad2 (month d) ++ "-" ++ pad2 (day d) ++ "-" ++ pad4 (year d))%string.

(** The volumes that are numbers. *)
Definition present_volumes (df : vframe) : list Q :=
  flat_map (fun r => match Volume r with Num q => [q] | _ => [] end) df.

(** [Series.mean()]: the mean of the values that are present, not a
    number when there is none. *)
Definition mean (vals : list Q) : num :=
  match vals with
  | [] => NaN
  | _ => Num (sum vals / inject_Z (len vals))
  end.

(** [a > b] on floats: false as soon as one is not a number. *)
Definition num_gt (a b : num) : bool :=
  match a, b with
  | Num x, Num y => negb (Qle_bool x y)
  | _, _ => false
  end.

(** A row of [vol_ind_df]. *)
Record VolumeRecord : Type := mk_volume_record {
  vol_company : string;
  current_date : string;
  start_date : string;
  current_volume : num;
  mean_volume : num;
  close_price : num;
  vol_action : bool
}.

(** What the row of a company says, given the frame fetched for it. *)
Definition volume_row_of (company : string) (df : vframe) (r : VolumeRecord)
  : Prop :=
  exists first last,
    getitem df 0 = Ok first /\ getitem df (-1) = Ok last
    /\ r = mk_volume_record company (strftime_mdy (VDate last))
                            (strftime (VDate first)) (Volume last)
                            (mean (present_volumes df)) (VClose last)
                            (num_gt (Volume last) (mean (present_volumes df))).

Section Run.
(** [DataRetrive.single_company_specific], with the volume column. *)
Variable fetch : string -> date -> date -> result vframe.

(** The body of the loop for one company. *)
Definition volume_row (company : string) (start end_ : date)
  : result VolumeRecord :=
  company_df <- fetch (company ++ ".NS") start end_ ;;
  last <- getitem company_df (-1) ;;
  let buy_stock := num_gt (Volume last) (mean (present_volumes company_df)) in
  last_index <- getitem company_df (-1) ;;
  first_index <- getitem company_df 0 ;;
  last_v <- getitem company_df (-1) ;;
  last_c <- getitem company_df (-1) ;;
  Ok (mk_volume_record company
                       (strftime_mdy (VDate last_index))
                       (strftime (VDate first_index))
                       (Volume last_v)
                       (mean (present_volumes company_df))
                       (VClose last_c)
                       buy_stock).

Fixpoint volume_rows (companies : list string) (start end_ : date)
         (vol_ind_df : list VolumeRecord) : result (list VolumeRecord) :=
  match companies with
  | [] => Ok vol_ind_df
  | company :: rest =>
      r <- volume_row company start end_ ;;
      volume_rows rest start end_ (vol_ind_df ++ [r])
  end.

(** [Indicator.volume_indicator_n_days(duration, export_path, verbosity)]:
    the rows written to the CSV file; the call returns nothing. *)
Definition volume_indicator_n_days (E : Env) (self : Indicator)
           (duration : Z) : result (list VolumeRecord * unit) :=
  let end_ := now E in
  let start := days_before end_ duration in
  match data self with
  | None => Raise AttributeError
  | Some companies =>
      rows <- volume_rows companies start end_ [] ;;
      Ok (rows, tt)
  end.

End Run.

End VolumeIndicator.

(** ** Further notions used to state properties *)

Module More.

Import Indicator IndicatorObject.

(** The series has the 201 closes the EMA of period 200 needs. *)
Definition enough_closes (df : frame) : bool := 201 <=? len (closes df).

(** No close of the frame is missing: [company_df['Close'].isnull().sum()]
    is 0, and the method leaves the frame as it is. *)
Definition no_close_missing (df : frame) : bool :=
  forallb (fun r => negb (isna (Close r))) df.

(** The frame has the 201 rows the EMA of period 200 needs. *)
Definition enough_rows (df : frame) : bool := 201 <=? len df.

(** The keywords [ema_indicator] declares. *)
Definition ema_indicator_keywords : list string :=
  ["export_path"; "verbosity"]%string.

(** What a row of the EMA table says about its company, whose frame
    misses no close: it carries the results of the two calls on the [Close]
    column, and the action that their comparison gives. *)
Definition ema_row_of (frames : string -> frame) (r : EMARecord) : Prop :=
  _exponential_moving_avarage (closes (frames (ema_company r))) 50 2
  = Ok (ema50 r)
  /\ _exponential_moving_avarage (closes (frames (ema_company r))) 200 2
     = Ok (ema200 r)
  /\ (action r = "buy"%string <-> (ema200 r < ema50 r)%Q)
  /\ (action r = "sell"%string <-> (ema50 r <= ema200 r)%Q).

(** A day of the calendar. *)
Definition valid_date (d : date) : Prop :=
  1 <= month d <= 12 /\ 1 <= day d <= days_in_month (year d) (month d).

End More.

(** ** Further examples *)

Module MoreExamples.

Import Indicator IndicatorObject Strategy Examples VolumeIndicator.

(** [series53] with other observations at positions 4 to 50. *)
Definition series53_gap : list Q :=
  (repeat 0%Q 4 ++ repeat 9%Q 47 ++ [0%Q; 1%Q])%list.

(** [n] rows of close [c], [n] rows of closes 1, 2, ..., [n], and [n]
    rows of closes [n], ..., 2, 1. *)
Definition flat_series (n : nat) (c : Q) : frame :=
  repeat (mk_row (mk_date 2020 1 31) (Num c)) n.

Definition falling_series (n : nat) : frame :=
  map (fun i => mk_row (mk_date 2020 1 31) (Num (inject_Z (Z.of_nat i))))
      (rev (seq 1 n)).

Definition rising_series (n : nat) : frame :=
  map (fun i => mk_row (mk_date 2020 1 31) (Num (inject_Z (Z.of_nat i))))
      (seq 1 n).

(** The complete histories of the examples: two long ones, a recent
    listing, and a ticker for which the connection fails. *)
Definition ema_provider (name : string) : result frame :=
  if String.eqb name "LONG.NS" then Ok (falling_series 210)
  else if String.eqb name "RISE.NS" then Ok (rising_series 210)
  else if String.eqb name "NEW.NS" then Ok (flat_series 60 10)
  else if String.eqb name "DOWN.NS" then Raise OSError
  else Raise KeyError.

Definition ema_env : Env :=
  mk_env example_provider ema_provider
         example_get_appropriate_date_momentum
         example_annualized_rate_of_return
         (mk_date 2020 1 31) example_strptime 4
         (fun _ => Raise OSError).

Definition ema_frames (c : string) : frame :=
  match ema_provider (c ++ ".NS") with
  | Ok df => df
  | Raise _ => []
  end.

Definition listed : Indicator :=
  mk_indicator "data/company_list.yaml"
               (Some ["LONG"; "NEW"; "RISE"]%string).

Definition listed_with_failure : Indicator :=
  mk_indicator "data/company_list.yaml"
               (Some (["LONG"%string; "NEW"%string]
                      ++ "DOWN"%string :: ["RISE"%string])%list).

(** Three days of volumes for two tickers, a ticker without rows and a
    failing one. *)
Definition volume_provider (name : string) (start end_ : date)
  : result vframe :=
  if String.eqb name "BUSY.NS"
  then Ok [mk_vrow (mk_date 2020 1 29) (Num 100) (Num 10);
           mk_vrow (mk_date 2020 1 30) (Num 101) (Num 10);
           mk_vrow (mk_date 2020 1 31) (Num 102) (Num 40)]
  else if String.eqb name "FLAT.NS"
  then Ok [mk_vrow (mk_date 2020 1 29) (Num 50) (Num 5);
           mk_vrow (mk_date 2020 1 30) (Num 51) (Num 5);
           mk_vrow (mk_date 2020 1 31) (Num 52) (Num 5)]
  else if String.eqb name "EMPTY.NS" then Ok []
  else Raise OSError.

Definition volume_frames (c : string) : vframe :=
  match volume_provider (c ++ ".NS") (mk_date 1 1 1) (mk_date 1 1 1) with
  | Ok df => df
  | Raise _ => []
  end.

Definition watched : Indicator :=
  mk_indicator "data/company_list.yaml" (Some ["BUSY"; "FLAT"]%string).

Definition watched_with_empty : Indicator :=
  mk_indicator "data/company_list.yaml"
               (Some (["BUSY"%string] ++ "EMPTY"%string :: ["FLAT"%string])%list).

End MoreExamples.

(** * Properties *)

(** ** The moving average *)

Module IndicatorFacts.
Import Indicator Examples.

Lemma len_nonneg (A : Type) (l : list A) : 0 <= len l.
Proof. unfold len. lia. Qed.

Lemma range_unfold (a b : Z) :
  a < b -> range a b = a :: range (a + 1) b.
Proof.
  intros H. unfold range.
  replace (Z.to_nat (b - a)) with (S (Z.to_nat (b - (a + 1)))) by lia.
  cbn [seq map]. f_equal; [lia|].
  rewrite <- seq_shift, map_map.
  apply map_ext. intros i. lia.
Qed.

Lemma range_empty (a b : Z) : b <= a -> range a b = [].
Proof.
  intros H. unfold range. replace (Z.to_nat (b - a)) with O by lia. reflexivity.
Qed.

Lemma range_In (a b i : Z) : In i (range a b) <-> a <= i < b.
Proof.
  unfold range. rewrite in_map_iff. split.
  - intros [k [<- Hk]]. apply in_seq in Hk. lia.
  - intros H. exists (Z.to_nat (i - a)). split; [lia|].
    apply in_seq. lia.
Qed.

Lemma getitem_nonneg (A : Type) (l : list A) (i : Z) :
  0 <= i < len l ->
  exists x, nth_error l (Z.to_nat i) = Some x /\ getitem l i = Ok x.
Proof.
  intros H. unfold getitem.
  destruct (Z.ltb_spec i 0) as [?|_]; [lia|].
  destruct (Z.ltb_spec i 0) as [?|_]; [lia|].
  destruct (Z.leb_spec (len l) i) as [?|_]; [lia|]. cbn [orb].
  destruct (nth_error l (Z.to_nat i)) as [x|] eqn:E.
  - exists x. auto.
  - apply nth_error_None in E. unfold len in H. lia.
Qed.

Lemma getitem_out_of_range (A : Type) (l : list A) (i : Z) :
  len l <= i -> getitem l i = Raise IndexError.
Proof.
  intros H. unfold getitem. pose proof (len_nonneg l).
  destruct (Z.ltb_spec i 0) as [?|_]; [lia|].
  destruct (Z.ltb_spec i 0) as [?|_]; [lia|].
  destruct (Z.leb_spec (len l) i) as [_|?]; [|lia]. reflexivity.
Qed.

Lemma skipn_nth_error (A : Type) (l : list A) (k : nat) (x : A) :
  nth_error l k = Some x -> skipn k l = x :: skipn (S k) l.
Proof.
  revert l. induction k as [|k IH]; intros [|y l] H; try discriminate.
  - cbn in H. injection H as ->. reflexivity.
  - cbn in H. cbn [skipn]. rewrite (IH l H). reflexivity.
Qed.

(** The loop run from index [a] to the end of the range: every read is in
    range, the [break] test never holds, and the locals end as the fold of
    the recurrence over [data[a+50:]]. *)
Lemma ema_loop_range (data : list Q) (mf : Q) (n : nat) :
  forall (a : Z) (st : ema_locals),
    0 <= a + 50 ->
    a + Z.of_nat n = len data - 50 ->
    exists st',
      ema_loop data mf (range a (len data - 50)) st = Ok st' /\
      ema_pre st' =
        fold_left (ema_step mf) (skipn (Z.to_nat (a + 50)) data) (ema_pre st) /\
      ema st' = match n with O => ema st | S _ => Some (ema_pre st') end.
Proof.
  induction n as [|n IH]; intros a st Ha Hn.
  - rewrite range_empty by lia. exists st. cbn [ema_loop].
    rewrite skipn_all2 by (unfold len in Hn; lia). auto.
  - rewrite range_unfold by lia. cbn [ema_loop].
    destruct (@getitem_nonneg Q data (a + 50)) as [x [Hx ->]]; [lia|].
    cbn [bind]. destruct (Z.eqb_spec a (len data - 50)) as [?|_]; [lia|].
    destruct (IH (a + 1) (mk_locals (ema_step mf (ema_pre st) x)
                                    (Some (ema_step mf (ema_pre st) x))))
      as [st' [Hrun [Hpre Hema]]]; [lia|lia|].
    exists st'. split; [exact Hrun|]. split.
    + rewrite Hpre. cbn [ema_pre]. rewrite (skipn_nth_error _ _ Hx).
      cbn [fold_left]. replace (Z.to_nat (a + 1 + 50)) with (S (Z.to_nat (a + 50))) by lia.
      reflexivity.
    + destruct n; [|exact Hema].
      rewrite Hema. cbn [ema]. f_equal.
      rewrite Hpre. cbn [ema_pre].
      rewrite skipn_all2 by (unfold len in Hn; lia). reflexivity.
Qed.

Lemma truediv_Z (a : Q) (z : Z) :
  z <> 0 -> truediv a (inject_Z z) = Ok (a / inject_Z z)%Q.
Proof.
  intros H. unfold truediv.
  destruct (Qeq_bool (inject_Z z) 0) eqn:E; [|reflexivity].
  apply Qeq_bool_iff in E. unfold Qeq in E. cbn in E. lia.
Qed.

Lemma truediv_zero (a : Q) : truediv a (inject_Z 0) = Raise ZeroDivisionError.
Proof. reflexivity. Qed.


Lemma loop_reads_range (data : list Q) :
  map (fun idx => idx + 50) (loop_indices data) = range 51 (len data).
Proof.
  unfold loop_indices, range. rewrite map_map.
  replace (Z.to_nat (len data - 50 - 1)) with (Z.to_nat (len data - 51)) by lia.
  apply map_ext. intros i. lia.
Qed.

(** The seed of the recurrence exists exactly when [data[period]] does. *)
Lemma ema_seed_ok (data : list Q) (period s : Z) :
  0 < period < len data ->
  exists x,
    getitem data period = Ok x /\
    truediv (inject_Z s) (inject_Z (1 + period))
      = Ok (inject_Z s / inject_Z (1 + period))%Q /\
    truediv (sum (slice_to data period)) (inject_Z period)
      = Ok (sum (slice_to data period) / inject_Z period)%Q.
Proof.
  intros H. destruct (@getitem_nonneg Q data period) as [x [_ Hx]]; [lia|].
  exists x. split; [exact Hx|]. split; apply truediv_Z; lia.
Qed.

Lemma ema_long_series (data : list Q) (period s : Z) :
  0 < period < len data -> 52 <= len data ->
  exists x,
    getitem data period = Ok x /\
    let mf := (inject_Z s / inject_Z (1 + period))%Q in
    let sma0 := (sum (slice_to data period) / inject_Z period)%Q in
    _exponential_moving_avarage data period s
    = Ok (fold_left (ema_step mf) (skipn 51 data) (ema_seed mf sma0 x)).
Proof.
  intros Hp Hl. destruct (ema_seed_ok data s Hp) as [x [Hx [Hmf Hsma]]].
  exists x. split; [exact Hx|]. intros mf sma0.
  unfold _exponential_moving_avarage. rewrite Hmf, Hsma, Hx. cbn [bind].
  fold mf. fold sma0. unfold loop_indices.
  destruct (@ema_loop_range data mf (Z.to_nat (len data - 51)) 1
              (mk_locals (ema_seed mf sma0 x) None))
    as [st' [Hrun [Hpre Hema]]]; [lia|lia|].
  rewrite Hrun. cbn [bind].
  destruct (Z.to_nat (len data - 51)) eqn:E; [lia|].
  rewrite Hema, Hpre. reflexivity.
Qed.

Lemma ema_short_series (data : list Q) (period s : Z) :
  0 < period < len data -> len data <= 51 ->
  _exponential_moving_avarage data period s = Raise UnboundLocalError.
Proof.
  intros Hp Hl. destruct (ema_seed_ok data s Hp) as [x [Hx [Hmf Hsma]]].
  unfold _exponential_moving_avarage. rewrite Hmf, Hsma, Hx. cbn [bind].
  unfold loop_indices. rewrite range_empty by lia. reflexivity.
Qed.

Lemma ema_too_few (data : list Q) (period s : Z) :
  0 < period -> len data <= period ->
  _exponential_moving_avarage data period s = Raise IndexError.
Proof.
  intros Hp Hl. unfold _exponential_moving_avarage.
  rewrite !truediv_Z by lia. cbn [bind].
  rewrite getitem_out_of_range by lia. reflexivity.
Qed.

(** C1 (as amended): after the seed, the loop index advances by one from 1
    to [len(data) - 51]; the positions read, [idx + 50], are every position
    from 51 to the end of the series; the [break] test never holds; and on a
    series of at least 52 observations the value returned is the recurrence
    folded over every observation from position 51 on. *)
Theorem ema_advances_by_one (data : list Q) (period s : Z) :
  0 < period < len data -> 52 <= len data ->
  loop_indices data = range 1 (len data - 50) /\
  map (fun idx => idx + 50) (loop_indices data) = range 51 (len data) /\
  Forall (fun idx => idx <> len data - 50) (loop_indices data) /\
  exists x,
    getitem data period = Ok x /\
    let mf := (inject_Z s / inject_Z (1 + period))%Q in
    let sma0 := (sum (slice_to data period) / inject_Z period)%Q in
    _exponential_moving_avarage data period s
    = Ok (fold_left (ema_step mf) (skipn 51 data) (ema_seed mf sma0 x)).
Proof.
  intros Hp Hl. split; [reflexivity|]. split; [apply loop_reads_range|].
  split.
  - apply Forall_forall. intros idx Hin. apply range_In in Hin. lia.
  - apply ema_long_series; assumption.
Qed.

Lemma ema_advances_by_one_witness :
  (0 < 3 < len series53) /\ 52 <= len series53 /\
  map (fun idx => idx + 50) (loop_indices series53) = range 51 (len series53).
Proof.
  assert (Hp : 0 < 3 < len series53) by (vm_compute; split; reflexivity).
  assert (Hl : 52 <= len series53) by (vm_compute; discriminate).
  split; [exact Hp|]. split; [exact Hl|].
  exact (proj1 (proj2 (@ema_advances_by_one series53 3 2 Hp Hl))).
Defined.

(** C1 (as stated) fails: on 53 observations the loop index takes the
    values 1 and 2, not 1 alone; the observation at position 52 decides the
    result, although no stride of 50 from position 51 reaches it; and the
    value differs from the stride-50 recurrence of the specification. *)
Lemma ema_stride50_counterexample :
  loop_indices series53 = [1; 2] /\
  (exists v w v0,
      _exponential_moving_avarage series53 3 2 = Ok v /\
      ema_stride50_spec series53 3 2 = Ok w /\
      _exponential_moving_avarage (repeat 0%Q 53) 3 2 = Ok v0 /\
      (v == 1 # 2)%Q /\ (w == 0)%Q /\ (v0 == 0)%Q /\ ~ (v == w)%Q).
Proof.
  split; [reflexivity|].
  eexists; eexists; eexists.
  split; [vm_compute; reflexivity|].
  split; [vm_compute; reflexivity|].
  split; [vm_compute; reflexivity|].
  split; [reflexivity|]. split; [reflexivity|]. split; [reflexivity|].
  discriminate.
Qed.

(** C2: a series of 51 observations is longer than the period 50, yet the
    call raises [UnboundLocalError]: the loop body never runs and [ema] is
    read unbound. *)
Theorem ema_51_observations_unbound :
  len (repeat 1%Q 51) = 51 /\
  _exponential_moving_avarage (repeat 1%Q 51) 50 2 = Raise UnboundLocalError.
Proof. split; vm_compute; reflexivity. Qed.

End IndicatorFacts.

(** ** The pool *)

Module MultiprocessingFacts.
Import Multiprocessing.

Lemma map_chunksize_pos (pool : Pool) (n : Z) :
  1 <= processes pool -> 1 <= n -> 1 <= map_chunksize pool n.
Proof.
  intros Hp Hn. unfold map_chunksize.
  destruct (Z.eqb_spec n 0) as [?|_]; [lia|].
  set (d := processes pool * 4).
  assert (Hd : 0 < d) by (unfold d; lia).
  pose proof (Z.div_mod n d ltac:(lia)) as Hdm.
  pose proof (Z.mod_pos_bound n d Hd) as Hb.
  pose proof (Z.div_pos n d ltac:(lia) Hd) as Hq.
  destruct (Z.eqb_spec (n mod d) 0) as [E|E]; nia.
Qed.

Section Batches.
Variables A B : Type.
Variable func : A -> result B.

Lemma get_tasks_concat (size : nat) :
  (1 <= size)%nat ->
  forall (fuel : nat) (it : list A),
    (List.length it <= fuel)%nat ->
    List.concat (get_tasks fuel size it) = it /\ shape size (get_tasks fuel size it).
Proof.
  intros Hs. induction fuel as [|fuel IH]; intros it Hl.
  - destruct it; [split; reflexivity|cbn in Hl; lia].
  - cbn [get_tasks].
    destruct (firstn size it) as [|x xs] eqn:E.
    + destruct it as [|a it]; [split; reflexivity|].
      destruct size; [lia|discriminate].
    + rewrite <- E.
      assert (Hlen : (List.length (skipn size it) <= fuel)%nat).
      { rewrite length_skipn.
        assert (it <> []) by (intros ->; rewrite firstn_nil in E; discriminate).
        destruct it; [congruence|cbn [List.length] in Hl |- *; lia]. }
      destruct (IH (skipn size it) Hlen) as [Hc Hsh].
      split.
      * cbn [List.concat]. rewrite Hc. apply firstn_skipn.
      * cbn [shape]. split; [rewrite length_firstn; lia|]. split; [|exact Hsh].
        intros Hne. rewrite length_firstn.
        assert (skipn size it <> []).
        { intros Hnil. rewrite Hnil in Hne. apply Hne.
          destruct fuel; cbn [get_tasks]; [reflexivity|].
          rewrite firstn_nil. reflexivity. }
        assert ((size < List.length it)%nat).
        { destruct (Nat.le_gt_cases (List.length it) size) as [Hle|Hgt];
            [|exact Hgt].
          exfalso. apply H. apply skipn_all2. exact Hle. }
        lia.
Qed.

Lemma run_chunk_app (l1 l2 : list A) :
  run_chunk func (l1 ++ l2)
  = (x <- run_chunk func l1 ;; y <- run_chunk func l2 ;; Ok (x ++ y)%list).
Proof.
  induction l1 as [|a l1 IH]; cbn [app run_chunk bind].
  - destruct (run_chunk func l2); reflexivity.
  - destruct (func a) as [b|e]; cbn [bind]; [|reflexivity].
    rewrite IH. destruct (run_chunk func l1); cbn [bind]; [|reflexivity].
    destruct (run_chunk func l2); reflexivity.
Qed.

Lemma run_chunk_length (c : list A) (vs : list B) :
  run_chunk func c = Ok vs -> List.length vs = List.length c.
Proof.
  revert vs. induction c as [|a c IH]; intros vs H; cbn in H.
  - injection H as <-. reflexivity.
  - destruct (func a); cbn in H; [|discriminate].
    destruct (run_chunk func c) as [bs|]; cbn in H; [|discriminate].
    injection H as <-. cbn. f_equal. apply IH. reflexivity.
Qed.

Lemma run_chunk_raise (c : list A) (e : exn) :
  run_chunk func c = Raise e -> exists a, In a c /\ func a = Raise e.
Proof.
  induction c as [|a c IH]; intros H; cbn in H; [discriminate|].
  destruct (func a) as [b|e'] eqn:Ea; cbn in H.
  - destruct (run_chunk func c) as [bs|e'']; cbn in H; [discriminate|].
    injection H as ->. destruct (IH eq_refl) as [a' [Hin Ha']].
    exists a'. split; [right; exact Hin|exact Ha'].
  - injection H as ->. exists a. split; [left; reflexivity|exact Ea].
Qed.

Lemma run_chunk_ok_iff (c : list A) :
  (exists vs, run_chunk func c = Ok vs)
  <-> (forall a, In a c -> exists b, func a = Ok b).
Proof.
  induction c as [|a c IH]; cbn [run_chunk].
  - split; [intros _ a []|intros _; eexists; reflexivity].
  - split.
    + intros [vs H] a' [<-|Hin].
      * destruct (func a); [eexists; reflexivity|discriminate].
      * apply IH; [|exact Hin].
        destruct (func a); cbn in H; [|discriminate].
        destruct (run_chunk func c); [eexists; reflexivity|discriminate].
    + intros H. destruct (H a (or_introl eq_refl)) as [b ->].
      destruct (proj2 IH (fun a' Hin => H a' (or_intror Hin))) as [vs ->].
      eexists. reflexivity.
Qed.

Lemma run_chunk_concat (cs : list (list A)) (vs : list B) :
  run_chunk func (List.concat cs) = Ok vs ->
  Forall (fun c => run_chunk func c = Ok (val_of func c)) cs
  /\ List.concat (map (val_of func) cs) = vs.
Proof.
  revert vs. induction cs as [|c cs IH]; intros vs H; cbn in H.
  - injection H as <-. split; [constructor|reflexivity].
  - rewrite run_chunk_app in H.
    destruct (run_chunk func c) as [x|] eqn:Ec; cbn in H; [|discriminate].
    destruct (run_chunk func (List.concat cs)) as [y|] eqn:Ecs; cbn in H;
      [|discriminate].
    injection H as <-. destruct (IH y eq_refl) as [Hall Hcat].
    split.
    + constructor; [|exact Hall]. unfold val_of. rewrite Ec. reflexivity.
    + cbn. rewrite Hcat. unfold val_of at 1. rewrite Ec. reflexivity.
Qed.

Lemma segs_ext (p q : nat -> bool) (cs : list (list A)) :
  forall base, (forall j, (base <= j)%nat -> p j = q j) ->
               segs func p base cs = segs func q base cs.
Proof.
  induction cs as [|c t IH]; intros base H; cbn [segs]; [reflexivity|].
  rewrite (H base (Nat.le_refl _)). f_equal. apply IH.
  intros j Hj. apply H. lia.
Qed.

Lemma slice_assign_segs (size : nat) (p q : nat -> bool) (new : list (option B)) :
  forall (cs : list (list A)) (base i : nat) (c : list A),
    shape size cs ->
    Forall (fun c => run_chunk func c = Ok (val_of func c)) cs ->
    (base <= i)%nat ->
    nth_error cs (i - base) = Some c ->
    p i = true -> q i = false ->
    (forall j, j <> i -> q j = p j) ->
    new = map Some (val_of func c) ->
    slice_assign (List.concat (segs func p base cs)) ((i - base) * size)
                 ((i - base + 1) * size) new
    = List.concat (segs func q base cs).
Proof.
  induction cs as [|c0 t IH]; intros base i c Hsh Hok Hbi Hnth Hp Hq Hpq Hnew.
  - destruct (i - base)%nat; discriminate.
  - cbn [shape] in Hsh. destruct Hsh as [Hle [Hfull Hsh]].
    inversion Hok as [|? ? Hc0 Hok']; subst.
    destruct (i - base)%nat as [|j] eqn:Ej.
    + assert (i = base) by lia. subst i.
      cbn in Hnth. injection Hnth as ->.
      cbn [segs List.concat]. rewrite Hp, Hq. unfold slice_assign.
      cbn [firstn Nat.mul Nat.add app]. rewrite ?Nat.add_0_r.
      f_equal.
      rewrite (segs_ext p q t (base := S base))
        by (intros j Hj; symmetry; apply Hpq; lia).
      destruct t as [|c1 t].
      * cbn [segs List.concat]. rewrite app_nil_r. apply skipn_all2.
        rewrite repeat_length. exact Hle.
      * rewrite skipn_app, repeat_length.
        rewrite (Hfull ltac:(discriminate)).
        rewrite Nat.sub_diag. cbn [skipn].
        rewrite skipn_all2 by (rewrite repeat_length; lia). reflexivity.
    + cbn in Hnth.
      assert (Ht : t <> []) by (intros ->; destruct j; discriminate).
      set (s0 := if p base then repeat None (List.length c0)
                 else map Some (val_of func c0)).
      assert (Hs0 : List.length s0 = size).
      { unfold s0. destruct (p base).
        - rewrite repeat_length. apply Hfull, Ht.
        - rewrite length_map, (run_chunk_length _ Hc0). apply Hfull, Ht. }
      cbn [segs List.concat]. fold s0.
      rewrite (Hpq base) by lia. fold s0.
      specialize (IH (S base) i c Hsh Hok' ltac:(lia)).
      replace (i - S base)%nat with j in IH by lia.
      specialize (IH Hnth Hp Hq Hpq eq_refl).
      rewrite <- IH. unfold slice_assign.
      replace (S j * size)%nat with (size + j * size)%nat by lia.
      replace ((S j + 1) * size)%nat with (size + (j + 1) * size)%nat by lia.
      rewrite firstn_app, skipn_app, Hs0.
      rewrite firstn_all2 by lia. rewrite skipn_all2 by lia.
      replace (size + j * size - size)%nat with (j * size)%nat by lia.
      replace (size + (j + 1) * size - size)%nat with ((j + 1) * size)%nat by lia.
      cbn [app]. rewrite <- app_assoc. reflexivity.
Qed.


Lemma is_pending_In (P : list (nat * list A)) (j : nat) :
  is_pending P j = true <-> In j (map fst P).
Proof.
  unfold is_pending. rewrite existsb_exists. split.
  - intros [x [Hin Hx]]. apply Nat.eqb_eq in Hx. subst. exact Hin.
  - intros H. exists j. split; [exact H|apply Nat.eqb_refl].
Qed.

Lemma is_pending_not_In (P : list (nat * list A)) (j : nat) :
  is_pending P j = false <-> ~ In j (map fst P).
Proof.
  rewrite <- is_pending_In. destruct (is_pending P j); split; intros H;
    try reflexivity; try discriminate; try (intros H'; discriminate).
  exfalso. apply H. reflexivity.
Qed.

Lemma nth_error_split_at (T : Type) (l : list T) (k : nat) (x : T) :
  nth_error l k = Some x -> l = firstn k l ++ x :: skipn (S k) l.
Proof.
  revert l. induction k as [|k IH]; intros [|y l] H; try discriminate.
  - cbn in H. injection H as ->. reflexivity.
  - cbn in H. cbn [firstn skipn app]. f_equal. apply IH, H.
Qed.

(** Once every batch succeeds, the slots end up holding the values of the
    batches in the order of the batches, whatever the completion order. *)
Lemma complete_all_ok (size : nat) (sched : nat -> nat) (cs : list (list A)) :
  shape size cs ->
  Forall (fun c => run_chunk func c = Ok (val_of func c)) cs ->
  forall (fuel : nat) (P : list (nat * list A)) (t : nat),
    List.length P = fuel ->
    NoDup (map fst P) ->
    (forall i c, In (i, c) P -> nth_error cs i = Some c) ->
    complete func size sched t fuel P
             (Ok (List.concat (segs func (is_pending P) 0 cs)))
    = Ok (List.concat (segs func (fun _ => false) 0 cs)).
Proof.
  intros Hsh Hok. induction fuel as [|fuel IH]; intros P t Hlen Hnd Hin.
  - destruct P; [|discriminate]. reflexivity.
  - cbn [complete].
    assert (Hk : (sched t mod List.length P < List.length P)%nat)
      by (apply Nat.mod_upper_bound; lia).
    set (k := (sched t mod List.length P)%nat) in *.
    destruct (nth_error P k) as [[i c]|] eqn:Ek;
      [|apply nth_error_None in Ek; lia].
    pose proof (nth_error_split_at _ _ Ek) as Hsplit.
    set (P' := (firstn k P ++ skipn (S k) P)%list) in *.
    assert (HinP : In (i, c) P) by (eapply nth_error_In; exact Ek).
    pose proof (Hin i c HinP) as Hnth.
    assert (Hc : run_chunk func c = Ok (val_of func c)).
    { rewrite Forall_forall in Hok. apply Hok.
      eapply nth_error_In. exact Hnth. }
    assert (Hnd' : NoDup (map fst P') /\ ~ In i (map fst P')).
    { rewrite Hsplit in Hnd. rewrite map_app in Hnd. cbn [map fst] in Hnd.
      unfold P'. rewrite map_app. split.
      - eapply NoDup_remove_1. exact Hnd.
      - eapply NoDup_remove_2. exact Hnd. }
    destruct Hnd' as [Hnd' Hni].
    assert (HP'in : forall x, In x P' -> In x P).
    { intros x Hx. rewrite Hsplit. unfold P' in Hx.
      apply in_app_or in Hx. apply in_or_app.
      destruct Hx; [left|right; right]; assumption. }
    rewrite Hc. cbn [_set].
    rewrite <- (Nat.sub_0_r i) at 1 2.
    rewrite (@slice_assign_segs size (is_pending P) (is_pending P')
               (map Some (val_of func c)) cs 0%nat i c Hsh Hok);
      try reflexivity; try lia.
    + apply IH.
      * unfold P'. rewrite length_app, length_firstn, length_skipn. lia.
      * exact Hnd'.
      * intros j d Hj. apply Hin, HP'in, Hj.
    + rewrite Nat.sub_0_r. exact Hnth.
    + apply is_pending_In. apply (in_map fst) in HinP. exact HinP.
    + apply is_pending_not_In. exact Hni.
    + intros j Hj. apply eq_true_iff_eq. rewrite !is_pending_In.
      rewrite Hsplit at 1. unfold P'. rewrite !map_app. cbn [map fst].
      rewrite !in_app_iff. cbn [In]. intuition congruence.
Qed.

(** As soon as one batch raises, the call ends with the exception of one
    of the calls. *)
Lemma complete_some_raise (size : nat) (sched : nat -> nat) (Q : A -> Prop) :
  forall (fuel : nat) (P : list (nat * list A)) (t : nat) (mr : MapResult B),
    List.length P = fuel ->
    ((exists e, mr = Raise e)
     \/ (exists i c e, In (i, c) P /\ run_chunk func c = Raise e)) ->
    (forall e, mr = Raise e -> exists a, Q a /\ func a = Raise e) ->
    (forall i c a, In (i, c) P -> In a c -> Q a) ->
    exists e, complete func size sched t fuel P mr = Raise e
              /\ exists a, Q a /\ func a = Raise e.
Proof.
  induction fuel as [|fuel IH]; intros P t mr Hlen Hinv Hsrc HQ.
  - destruct P; [|discriminate]. destruct Hinv as [[e ->]|[i [c [e [[] _]]]]].
    exists e. split; [reflexivity|]. apply Hsrc. reflexivity.
  - cbn [complete].
    assert (Hk : (sched t mod List.length P < List.length P)%nat)
      by (apply Nat.mod_upper_bound; lia).
    set (k := (sched t mod List.length P)%nat) in *.
    destruct (nth_error P k) as [[i c]|] eqn:Ek;
      [|apply nth_error_None in Ek; lia].
    pose proof (nth_error_split_at _ _ Ek) as Hsplit.
    apply IH.
    + rewrite length_app, length_firstn, length_skipn. lia.
    + destruct Hinv as [[e ->]|[i' [c' [e [Hin He]]]]].
      * left. exists e. destruct (run_chunk func c); reflexivity.
      * rewrite Hsplit in Hin. apply in_app_or in Hin.
        destruct Hin as [Hin|[Heq|Hin]].
        -- right. exists i', c', e. split; [apply in_or_app; left|]; assumption.
        -- injection Heq as <- <-. left. rewrite He.
           destruct mr as [v|e0]; [exists e|exists e0]; reflexivity.
        -- right. exists i', c', e. split; [apply in_or_app; right|]; assumption.
    + intros e He. destruct mr as [v|e0].
      * destruct (run_chunk func c) as [vs|e1] eqn:Ec; cbn in He;
          [discriminate|].
        injection He as ->. destruct (run_chunk_raise _ Ec) as [a [Ha Hf]].
        exists a. split; [|exact Hf].
        apply (HQ i c a); [eapply nth_error_In; exact Ek|exact Ha].
      * apply Hsrc. destruct (run_chunk func c); cbn in He; exact He.
    + intros i' c' a Hin Ha. apply (HQ i' c' a); [|exact Ha].
      rewrite Hsplit. apply in_app_or in Hin. apply in_or_app.
      destruct Hin; [left|right; right]; assumption.
Qed.

Lemma jobs_nth_error (T : Type) (cs : list T) :
  forall (base j : nat),
    nth_error (combine (seq base (List.length cs)) cs) j
    = option_map (fun c => ((base + j)%nat, c)) (nth_error cs j).
Proof.
  induction cs as [|c cs IH]; intros base j; cbn [List.length seq combine].
  - destruct j; reflexivity.
  - destruct j as [|j]; cbn [nth_error option_map].
    + rewrite Nat.add_0_r. reflexivity.
    + rewrite IH. replace (S base + j)%nat with (base + S j)%nat by lia.
      reflexivity.
Qed.

Lemma jobs_In (T : Type) (cs : list T) (i : nat) (c : T) :
  In (i, c) (combine (seq 0 (List.length cs)) cs) -> nth_error cs i = Some c.
Proof.
  intros H. apply In_nth_error in H. destruct H as [j Hj].
  rewrite jobs_nth_error in Hj.
  destruct (nth_error cs j) as [c'|] eqn:E; cbn in Hj; [|discriminate].
  injection Hj as <- <-. exact E.
Qed.

Lemma In_jobs (T : Type) (cs : list T) (c : T) :
  In c cs -> exists i, In (i, c) (combine (seq 0 (List.length cs)) cs).
Proof.
  intros H. apply In_nth_error in H. destruct H as [j Hj].
  exists j. apply (nth_error_In _ j). rewrite jobs_nth_error, Hj. reflexivity.
Qed.

Lemma jobs_fst (T : Type) (cs : list T) (base : nat) :
  map fst (combine (seq base (List.length cs)) cs) = seq base (List.length cs).
Proof.
  revert base. induction cs as [|c cs IH]; intros base; cbn; [reflexivity|].
  f_equal. apply IH.
Qed.

Lemma segs_all_pending (p : nat -> bool) (cs : list (list A)) :
  forall base,
    (forall j, (base <= j < base + List.length cs)%nat -> p j = true) ->
    List.concat (segs func p base cs)
    = repeat None (List.length (List.concat cs)).
Proof.
  induction cs as [|c cs IH]; intros base H; cbn [segs List.concat];
    [reflexivity|].
  rewrite H by (cbn; lia). rewrite length_app, repeat_app. f_equal.
  apply IH. intros j Hj. apply H. cbn. lia.
Qed.

Lemma filled_app (v1 v2 : list (option B)) :
  filled (v1 ++ v2) = (filled v1 ++ filled v2)%list.
Proof. unfold filled. apply flat_map_app. Qed.

Lemma filled_map_Some (vs : list B) : filled (map Some vs) = vs.
Proof.
  induction vs as [|v vs IH]; cbn; [reflexivity|].
  f_equal. exact IH.
Qed.

Lemma filled_segs_done (cs : list (list A)) :
  forall base,
    filled (List.concat (segs func (fun _ => false) base cs))
    = List.concat (map (val_of func) cs).
Proof.
  induction cs as [|c cs IH]; intros base; cbn [segs List.concat map];
    [reflexivity|].
  rewrite filled_app, filled_map_Some, IH. reflexivity.
Qed.

Lemma run_chunk_concat_raise (cs : list (list A)) (e : exn) :
  run_chunk func (List.concat cs) = Raise e ->
  exists c e', In c cs /\ run_chunk func c = Raise e'.
Proof.
  induction cs as [|c cs IH]; intros H; cbn in H; [discriminate|].
  rewrite run_chunk_app in H.
  destruct (run_chunk func c) as [x|e1] eqn:Ec; cbn in H.
  - destruct (run_chunk func (List.concat cs)) as [y|e2] eqn:Ecs; cbn in H;
      [discriminate|].
    destruct (IH H) as [c' [e' [Hin He']]].
    exists c', e'. split; [right; exact Hin|exact He'].
  - exists c, e1. split; [left; reflexivity|exact Ec].
Qed.

Lemma chunksize_of_args (pool : Pool) (args : list A) :
  1 <= processes pool -> args <> [] ->
  (1 <= Z.to_nat (map_chunksize pool (len args)))%nat.
Proof.
  intros Hp Hne.
  assert (1 <= len args).
  { unfold len. destruct args; [congruence|cbn [List.length]; lia]. }
  pose proof (map_chunksize_pos pool Hp H). lia.
Qed.

(** Whatever the completion order, [starmap] on calls that all return is
    the list of their values in the order of the arguments. *)
Lemma starmap_all_ok (pool : Pool) (sched : nat -> nat) (args : list A)
      (vs : list B) :
  1 <= processes pool ->
  run_chunk func args = Ok vs ->
  starmap pool sched func args = Ok vs.
Proof.
  intros Hp Hrun. unfold starmap.
  destruct args as [|a0 args'] eqn:Eargs.
  - cbn in Hrun. injection Hrun as <-. reflexivity.
  - rewrite <- Eargs in *.
    assert (Hne : args <> []) by (rewrite Eargs; discriminate).
    set (size := Z.to_nat (map_chunksize pool (len args))).
    pose proof (chunksize_of_args pool Hp Hne) as Hsize. fold size in Hsize.
    destruct (@get_tasks_concat size Hsize (List.length args) args
                (Nat.le_refl _)) as [Hcat Hsh].
    set (cs := get_tasks (List.length args) size args) in *.
    rewrite <- Hcat in Hrun.
    destruct (run_chunk_concat _ Hrun) as [Hok Hvs].
    unfold MapResult_init.
    rewrite <- Hcat at 1.
    rewrite <- (@segs_all_pending
                  (is_pending (combine (seq 0 (List.length cs)) cs)) cs 0%nat).
    + rewrite (@complete_all_ok size sched cs Hsh Hok).
      * cbn [get]. rewrite filled_segs_done. rewrite Hvs. reflexivity.
      * reflexivity.
      * rewrite jobs_fst. apply seq_NoDup.
      * intros i c. apply jobs_In.
    + intros j Hj. apply is_pending_In. rewrite jobs_fst. apply in_seq. lia.
Qed.

(** Whatever the completion order, [starmap] on calls one of which raises
    raises the exception of one of the calls. *)
Lemma starmap_some_raise (pool : Pool) (sched : nat -> nat) (args : list A)
      (e0 : exn) :
  1 <= processes pool ->
  run_chunk func args = Raise e0 ->
  exists e, starmap pool sched func args = Raise e
            /\ exists a, In a args /\ func a = Raise e.
Proof.
  intros Hp Hrun. unfold starmap.
  assert (Hne : args <> []) by (intros ->; discriminate).
  set (size := Z.to_nat (map_chunksize pool (len args))).
  pose proof (chunksize_of_args pool Hp Hne) as Hsize. fold size in Hsize.
  destruct (@get_tasks_concat size Hsize (List.length args) args
              (Nat.le_refl _)) as [Hcat Hsh].
  set (cs := get_tasks (List.length args) size args) in *.
  rewrite <- Hcat in Hrun.
  destruct (run_chunk_concat_raise _ Hrun) as [c [e' [Hin He']]].
  destruct (In_jobs _ _ Hin) as [i Hi].
  destruct (@complete_some_raise size sched (fun a => In a args)
              (List.length (combine (seq 0 (List.length cs)) cs))
              (combine (seq 0 (List.length cs)) cs) 0%nat
              (MapResult_init B (List.length args)) eq_refl)
    as [e [Hc Ha]].
  - right. exists i, c, e'. split; assumption.
  - intros e H. discriminate.
  - intros j d a Hj Ha. apply jobs_In in Hj. rewrite <- Hcat.
    apply in_concat. exists d. split; [eapply nth_error_In; exact Hj|exact Ha].
  - exists e. rewrite Hc. split; [reflexivity|exact Ha].
Qed.

End Batches.
End MultiprocessingFacts.

(** ** Data frames *)

Module DataFrameFacts.
Import DataFrame.

Section Sorting.
Variable A : Type.
Variable key : A -> num.

Lemma dropna_In (has_na : A -> bool) (df : list A) (r : A) :
  In r (dropna has_na df) <-> In r df /\ has_na r = false.
Proof.
  unfold dropna. rewrite filter_In, negb_true_iff. reflexivity.
Qed.

Lemma insert_by_perm (x : A) (l : list A) :
  Permutation (insert_by key x l) (x :: l).
Proof.
  induction l as [|y t IH]; cbn [insert_by]; [reflexivity|].
  destruct (num_leb (key x) (key y)); [reflexivity|].
  rewrite IH. apply perm_swap.
Qed.

Lemma sort_ascending_perm (l : list A) : Permutation (sort_ascending key l) l.
Proof.
  induction l as [|x t IH]; cbn [sort_ascending]; [reflexivity|].
  rewrite insert_by_perm. constructor. exact IH.
Qed.

Lemma filter_partition_perm (f : A -> bool) (l : list A) :
  Permutation (filter (fun r => negb (f r)) l ++ filter f l) l.
Proof.
  induction l as [|x t IH]; cbn [filter]; [reflexivity|].
  destruct (f x); cbn [negb app].
  - rewrite <- Permutation_middle. constructor. exact IH.
  - constructor. exact IH.
Qed.

Lemma sort_values_descending_perm (df : list A) :
  Permutation (sort_values_descending key df) df.
Proof.
  unfold sort_values_descending.
  rewrite <- (filter_partition_perm (fun r => isna (key r)) df) at 3.
  apply Permutation_app_tail.
  rewrite <- Permutation_rev, sort_ascending_perm, <- Permutation_rev.
  reflexivity.
Qed.

Lemma num_leb_total (a b : num) : num_leb a b = false -> num_leb b a = true.
Proof.
  destruct a as [| |x], b as [| |y]; cbn; try reflexivity; try discriminate.
  intros H. apply Qle_bool_iff. destruct (Qle_bool x y) eqn:E; [discriminate|].
  destruct (Qlt_le_dec y x) as [Hlt|Hle]; [apply Qlt_le_weak, Hlt|].
  apply Qle_bool_iff in Hle. congruence.
Qed.

Lemma num_leb_trans (a b c : num) :
  isna b = false ->
  num_leb a b = true -> num_leb b c = true -> num_leb a c = true.
Proof.
  destruct a as [| |x], b as [| |y], c as [| |z]; cbn; try reflexivity;
    try discriminate.
  intros _ H1 H2. apply Qle_bool_iff in H1, H2. apply Qle_bool_iff.
  eapply Qle_trans; eassumption.
Qed.

Lemma insert_by_sorted (x : A) (l : list A) :
  present key x -> Forall (present key) l ->
  StronglySorted (fun a b => not_above key b a) l ->
  StronglySorted (fun a b => not_above key b a) (insert_by key x l).
Proof.
  intros Hx Hl Hs. induction Hs as [|y t Hs IH Hy]; cbn [insert_by].
  - constructor; constructor.
  - inversion Hl as [|? ? Hpy Hlt]; subst.
    destruct (num_leb (key x) (key y)) eqn:E.
    + constructor; [constructor; assumption|].
      constructor; [exact E|].
      rewrite Forall_forall in Hy |- *. intros z Hz.
      unfold not_above. eapply num_leb_trans; [exact Hpy|exact E|].
      apply Hy, Hz.
    + constructor; [apply IH, Hlt|].
      rewrite Forall_forall in Hy |- *. intros z Hz.
      apply (Permutation_in _ (insert_by_perm x t)) in Hz.
      destruct Hz as [<-|Hz]; [apply num_leb_total, E|apply Hy, Hz].
Qed.

Lemma sort_ascending_sorted (l : list A) :
  Forall (present key) l ->
  StronglySorted (fun a b => not_above key b a) (sort_ascending key l).
Proof.
  induction l as [|x t IH]; intros H; cbn [sort_ascending]; [constructor|].
  inversion H as [|? ? Hx Ht]; subst.
  apply insert_by_sorted; [exact Hx| |apply IH, Ht].
  rewrite Forall_forall in Ht |- *. intros z Hz. apply Ht.
  eapply Permutation_in; [apply sort_ascending_perm|exact Hz].
Qed.

Lemma StronglySorted_app (R : A -> A -> Prop) (l1 l2 : list A) :
  StronglySorted R l1 -> StronglySorted R l2 ->
  (forall a b, In a l1 -> In b l2 -> R a b) ->
  StronglySorted R (l1 ++ l2).
Proof.
  intros H1 H2 H. induction H1 as [|x t Ht IH Hx]; cbn [app]; [exact H2|].
  constructor.
  - apply IH. intros a b Ha Hb. apply H; [right; exact Ha|exact Hb].
  - apply Forall_app. split; [exact Hx|].
    apply Forall_forall. intros b Hb. apply H; [left; reflexivity|exact Hb].
Qed.

Lemma StronglySorted_rev (R : A -> A -> Prop) (l : list A) :
  StronglySorted R l -> StronglySorted (fun a b => R b a) (rev l).
Proof.
  induction 1 as [|x t Ht IH Hx]; cbn [rev]; [constructor|].
  apply StronglySorted_app; [exact IH|constructor; constructor|].
  intros a b Ha [<-|[]]. rewrite Forall_forall in Hx. apply Hx.
  apply in_rev. exact Ha.
Qed.

Lemma absent_sorted (l : list A) :
  Forall (fun r => isna (key r) = true) l -> StronglySorted (not_above key) l.
Proof.
  induction 1 as [|x t Hx Ht IH]; constructor; [exact IH|].
  eapply Forall_impl; [|exact Ht]. intros a Ha. cbn beta in Ha.
  unfold not_above.
  destruct (key a); try discriminate; reflexivity.
Qed.

(** The rows come out in non-increasing order of the key, the rows
    without a key last. *)
Lemma sort_values_descending_sorted (df : list A) :
  StronglySorted (not_above key) (sort_values_descending key df).
Proof.
  unfold sort_values_descending. apply StronglySorted_app.
  - apply (StronglySorted_rev (R := fun a b => not_above key b a)).
    apply sort_ascending_sorted.
    apply Forall_forall. intros r Hr. apply in_rev, filter_In in Hr.
    destruct Hr as [_ Hr]. apply negb_true_iff in Hr. exact Hr.
  - apply absent_sorted. apply Forall_forall. intros r Hr.
    apply filter_In in Hr. apply Hr.
  - intros a b _ Hb. apply filter_In in Hb. destruct Hb as [_ Hb].
    unfold not_above. destruct (key b); try discriminate; reflexivity.
Qed.

(** The order depends on the key alone: a change of the rows that leaves
    the key as it is goes through the sort. *)
Lemma insert_by_map (g : A -> A) (x : A) (l : list A) :
  (forall r, key (g r) = key r) ->
  insert_by key (g x) (map g l) = map g (insert_by key x l).
Proof.
  intros Hg. induction l as [|y t IH]; cbn [map insert_by]; [reflexivity|].
  rewrite !Hg. destruct (num_leb (key x) (key y)); cbn [map]; [reflexivity|].
  rewrite IH. reflexivity.
Qed.

Lemma sort_ascending_map (g : A -> A) (l : list A) :
  (forall r, key (g r) = key r) ->
  sort_ascending key (map g l) = map g (sort_ascending key l).
Proof.
  intros Hg. induction l as [|x t IH]; cbn [map sort_ascending]; [reflexivity|].
  rewrite IH. apply insert_by_map, Hg.
Qed.

Lemma filter_map_commute (g : A -> A) (f : A -> bool) (l : list A) :
  (forall r, f (g r) = f r) -> filter f (map g l) = map g (filter f l).
Proof.
  intros Hg. induction l as [|x t IH]; cbn [map filter]; [reflexivity|].
  rewrite Hg. destruct (f x); cbn [map]; rewrite IH; reflexivity.
Qed.

Lemma sort_values_descending_map (g : A -> A) (df : list A) :
  (forall r, key (g r) = key r) ->
  sort_values_descending key (map g df)
  = map g (sort_values_descending key df).
Proof.
  intros Hg. unfold sort_values_descending.
  rewrite !filter_map_commute by (intros r; rewrite Hg; reflexivity).
  rewrite map_app, map_rev, <- sort_ascending_map by exact Hg.
  rewrite map_rev. reflexivity.
Qed.

Lemma filter_none (f : A -> bool) (l : list A) :
  (forall r, In r l -> f r = false) -> filter f l = [].
Proof.
  induction l as [|x t IH]; intros H; cbn [filter]; [reflexivity|].
  rewrite (H x (or_introl eq_refl)). apply IH. intros r Hr. apply H.
  right. exact Hr.
Qed.

Lemma head_firstn (n : Z) (df : list A) :
  0 <= n -> head n df = firstn (Z.to_nat n) df.
Proof.
  intros H. unfold head. destruct (Z.ltb_spec n 0); [lia|reflexivity].
Qed.

Lemma head_length (n : Z) (df : list A) :
  0 <= n -> len (head n df) = Z.min n (len df).
Proof.
  intros H. rewrite head_firstn by exact H. unfold len.
  rewrite length_firstn. lia.
Qed.

End Sorting.

Lemma is_unique_NoDup (keys : list string) :
  is_unique keys = true <-> NoDup keys.
Proof.
  induction keys as [|k t IH]; cbn [is_unique].
  - split; [constructor|reflexivity].
  - rewrite andb_true_iff, negb_true_iff, IH. split.
    + intros [Hk Ht]. constructor; [|exact Ht]. intros Hin.
      assert (existsb (String.eqb k) t = true).
      { apply existsb_exists. exists k. split; [exact Hin|apply String.eqb_refl]. }
      congruence.
    + intros H. inversion H as [|? ? Hk Ht]; subst. split; [|exact Ht].
      destruct (existsb (String.eqb k) t) eqn:E; [|reflexivity].
      apply existsb_exists in E. destruct E as [x [Hx Ex]].
      apply String.eqb_eq in Ex. subst. contradiction.
Qed.

Section Merge.
Variables L R : Type.
Variable lkey : L -> string.
Variable rkey : R -> string.

Lemma matches_unique (k : string) (right_ : list R) :
  NoDup (map rkey right_) -> In k (map rkey right_) ->
  exists r, filter (fun r => String.eqb k (rkey r)) right_ = [r] /\ rkey r = k.
Proof.
  induction right_ as [|r t IH]; intros Hnd Hin; [destruct Hin|].
  cbn [map] in Hnd, Hin. inversion Hnd as [|? ? Hr Ht]; subst.
  cbn [filter]. destruct (String.eqb_spec k (rkey r)) as [E|E].
  - exists r. split; [|symmetry; exact E]. f_equal.
    assert (Hnone : forall x, In x t -> String.eqb k (rkey x) = false).
    { intros x Hx. apply String.eqb_neq. intros Ex. apply Hr.
      rewrite <- E, Ex. apply in_map, Hx. }
    clear -Hnone. induction t as [|y t IHt]; cbn [filter]; [reflexivity|].
    rewrite (Hnone y (or_introl eq_refl)). apply IHt.
    intros x Hx. apply Hnone. right. exact Hx.
  - destruct Hin as [Hin|Hin]; [congruence|]. apply IH; assumption.
Qed.

Lemma merge_rows (left_ : list L) (right_ : list R) :
  NoDup (map rkey right_) ->
  (forall k, In k (map lkey left_) -> In k (map rkey right_)) ->
  let rows := flat_map
                (fun l => map (pair l)
                              (filter (fun r => String.eqb (lkey l) (rkey r))
                                      right_)) left_ in
  map fst rows = left_
  /\ Forall (fun lr => In (snd lr) right_ /\ rkey (snd lr) = lkey (fst lr))
            rows.
Proof.
  intros Hnd. induction left_ as [|l t IH]; intros Hsub rows.
  - split; [reflexivity|constructor].
  - destruct (@matches_unique (lkey l) right_ Hnd) as [r [Hf Hr]].
    { apply Hsub. left. reflexivity. }
    destruct IH as [IH1 IH2].
    { intros k Hk. apply Hsub. right. exact Hk. }
    unfold rows. cbn [flat_map]. rewrite Hf. cbn [map app]. split.
    + cbn [fst]. f_equal. exact IH1.
    + constructor; [|exact IH2]. cbn [fst snd]. split; [|exact Hr].
      assert (Hin : In r (filter (fun r => String.eqb (lkey l) (rkey r))
                                 right_))
        by (rewrite Hf; left; reflexivity).
      apply filter_In in Hin. apply Hin.
Qed.

End Merge.

End DataFrameFacts.

(** ** The strategies *)

Module StrategyFacts.
Import DataFrame Multiprocessing Strategy Examples.
Import MultiprocessingFacts DataFrameFacts.

(** Peel the first call off a chain that returned. *)
Ltac peel H :=
  match type of H with
  | bind ?c _ = Ok _ =>
      let E := fresh "E" in
      revert H; destruct c eqn:E; cbn [bind]; intros H; [|discriminate H]
  end.

Lemma run_chunk_Forall2 (A B : Type) (f : A -> result B) (l : list A)
      (rs : list B) :
  run_chunk f l = Ok rs <-> Forall2 (fun a b => f a = Ok b) l rs.
Proof.
  revert rs. induction l as [|a l IH]; intros rs; cbn [run_chunk].
  - split.
    + intros H. injection H as <-. constructor.
    + intros H. inversion H. reflexivity.
  - split.
    + intros H. peel H. peel H. injection H as <-.
      constructor; [assumption|]. apply IH. reflexivity.
    + intros H. inversion H as [|? b ? bs Hab Hrest]; subst.
      rewrite Hab. cbn [bind]. apply IH in Hrest. rewrite Hrest. reflexivity.
Qed.

(** What a [try] block that ran to its end has done. *)
Lemma try_block_ok (E : Env) (company : string) (start end_ : date)
      (v : Z) (loc : momentum_locals) :
  try_block E company start end_ v = Ok loc ->
  exists df first last back30 yearly,
    single_company_specific E (company ++ ".NS") start end_ = Ok df
    /\ iloc df 0 = Ok first /\ iloc df (-1) = Ok last
    /\ iloc df (-30) = Ok back30
    /\ annualized_rate_of_return E (Close last) (Close first) 1%Q = Ok yearly
    /\ company_df loc = df /\ ar_yearly loc = yearly.
Proof.
  unfold try_block. intros H.
  peel H. peel H. peel H. peel H. peel H. peel H. peel H. peel H.
  injection H as <-.
  eexists; eexists; eexists; eexists; eexists.
  repeat split; try eassumption; reflexivity.
Qed.

Lemma parallel_momentum_ok (E : Env) (company : string) (start end_ : date)
      (v : Z) (loc : momentum_locals) :
  try_block E company start end_ v = Ok loc ->
  exists r, _parallel_momentum E company start end_ v = Ok r
            /\ Strategy.company r = company
            /\ return_yearly r = ar_yearly loc.
Proof.
  intros H. destruct (try_block_ok _ _ _ _ _ H)
    as [df [first [last [back30 [yearly [_ [H0 [H1 [H30 [_ [Hdf _]]]]]]]]]]].
  unfold _parallel_momentum. rewrite H. cbn [try_except bind].
  rewrite Hdf, H0, H1, H30. cbn [bind].
  eexists. split; [reflexivity|]. split; reflexivity.
Qed.

Lemma parallel_momentum_raise (E : Env) (company : string) (start end_ : date)
      (v : Z) (e : exn) :
  try_block E company start end_ v = Raise e ->
  _parallel_momentum E company start end_ v
  = if caught e then Ok (unusable_record company) else Raise e.
Proof.
  intros H. unfold _parallel_momentum. rewrite H. cbn [try_except].
  fold (caught e). destruct (caught e); reflexivity.
Qed.

Lemma caught_iff (e : exn) :
  caught e = true
  <-> e = IndexError \/ e = KeyError \/ e = ValueError \/ e = MergeError.
Proof.
  destruct e; cbn; split; intros H; try reflexivity; try discriminate;
    try (repeat (destruct H as [H|H]; try discriminate));
    auto 6.
Qed.


(** A batch of evaluations none of which leaves the handler returns one
    record per company, in the order of the companies. *)
Lemma batch_of_contained (E : Env) (start end_ : date) (v : Z)
      (companies : list string) :
  (forall c e, In c companies ->
               try_block E c start end_ v = Raise e -> caught e = true) ->
  exists records,
    Forall2 (fun c r => _parallel_momentum E c start end_ v = Ok r)
            companies records.
Proof.
  induction companies as [|c cs IH]; intros H.
  - exists []. constructor.
  - destruct IH as [rs Hrs].
    { intros c' e Hin. apply H. right. exact Hin. }
    destruct (try_block E c start end_ v) as [loc|e] eqn:Et.
    + destruct (parallel_momentum_ok _ _ _ _ _ Et) as [r [Hr _]].
      exists (r :: rs). constructor; assumption.
    + exists (unusable_record c :: rs). constructor; [|exact Hrs].
      rewrite (parallel_momentum_raise _ _ _ _ _ Et).
      rewrite (H c e (or_introl eq_refl) Et). reflexivity.
Qed.

(** C4 (as amended): a failure of the [try] block whose class is
    [IndexError], [KeyError] or [ValueError] (or derives from one) becomes
    the unusable record; a failure of any other class leaves
    [_parallel_momentum] as it is.  When every failure of a batch is of a
    caught class, the pool returns one record per company, each the result
    of that company's own evaluation, whatever the size of the pool and
    the completion order. *)
Theorem caught_failures_are_contained (E : Env) (start end_ : date) (v : Z) :
  (forall company e,
      try_block E company start end_ v = Raise e ->
      _parallel_momentum E company start end_ v
      = if caught e then Ok (unusable_record company) else Raise e)
  /\ (forall pool sched companies,
         1 <= processes pool ->
         (forall c e, In c companies ->
                      try_block E c start end_ v = Raise e -> caught e = true) ->
         exists records,
           starmap pool sched
                   (fun c => _parallel_momentum E c start end_ v) companies
           = Ok records
           /\ Forall2 (fun c r => _parallel_momentum E c start end_ v = Ok r)
                      companies records).
Proof.
  split.
  - intros company e H. apply parallel_momentum_raise, H.
  - intros pool sched companies Hp H.
    destruct (batch_of_contained E start end_ v companies H) as [rs Hrs].
    exists rs. split; [|exact Hrs].
    apply starmap_all_ok; [exact Hp|]. apply run_chunk_Forall2, Hrs.
Qed.

Lemma caught_failures_are_contained_witness :
  _parallel_momentum (example_env 4) "NOPE" year_start year_end 1
  = Ok (unusable_record "NOPE")
  /\ exists records,
      starmap (mk_pool 3) last_first
              (fun c => _parallel_momentum (example_env 4) c year_start year_end 1)
              ["A"; "NOPE"; "SHORT"; "C"]%string
      = Ok records
      /\ Forall2 (fun c r => _parallel_momentum (example_env 4) c
                                                year_start year_end 1 = Ok r)
                 ["A"; "NOPE"; "SHORT"; "C"]%string records.
Proof.
  destruct (caught_failures_are_contained (example_env 4) year_start year_end 1)
    as [H1 H2].
  split.
  - exact (H1 "NOPE"%string KeyError eq_refl).
  - apply (H2 (mk_pool 3) last_first); [cbn; lia|].
    intros c e [<-|[<-|[<-|[<-|[]]]]]; vm_compute; intros H;
      try discriminate H; injection H as <-; reflexivity.
Defined.

(** C4 (as stated) fails: when the provider fails with an [OSError] for
    one ticker, or the return formula divides by a zero start price, the
    exception leaves [_parallel_momentum], and the run over a list that
    holds such a ticker ends with it, the other company unevaluated. *)
Lemma uncaught_failure_counterexample :
  _parallel_momentum (example_env 4) "DOWN" year_start year_end 1
  = Raise OSError
  /\ _parallel_momentum (example_env 4) "ZERO" year_start year_end 1
     = Raise ZeroDivisionError
  /\ momentum_strategy (example_env 4) in_order ["A"; "DOWN"]%string
                       "today" 20 false 1
     = Raise OSError.
Proof. repeat split; vm_compute; reflexivity. Qed.

Lemma head_In (T : Type) (n : Z) (l : list T) (x : T) :
  In x (head n l) -> In x l.
Proof.
  unfold head. destruct (n <? 0); intros H;
    match type of H with
    | In _ (firstn ?k _) => rewrite <- (firstn_skipn k l)
    end; apply in_or_app; left; exact H.
Qed.

Lemma rank_In (result_ ranked : list MomentumRecord) :
  rank result_ = Ok ranked ->
  forall x, In x ranked <-> In x result_ /\ has_na x = false.
Proof.
  unfold rank. intros Hr x.
  destruct result_ as [|r0 rest]; [discriminate|]. injection Hr as <-.
  rewrite <- dropna_In. split; apply Permutation_in.
  - apply sort_values_descending_perm.
  - symmetry. apply sort_values_descending_perm.
Qed.

(** No row of the output of [momentum_strategy] has an absent cell. *)
Lemma momentum_strategy_output_usable (E : Env) (sched : nat -> nat)
      (data : list string) (end_date : string) (top : Z) (save : bool)
      (v : Z) (out : outcome (list MomentumRecord)) :
  momentum_strategy E sched data end_date top save v = Ok out ->
  forall x, In x (rows_of out) -> has_na x = false.
Proof.
  unfold momentum_strategy. intros H. peel H. peel H. peel H. peel H.
  intros x Hx.
  match goal with
  | Hr : rank _ = Ok ?ranked |- _ =>
      apply (rank_In _ Hr); apply (@head_In _ top);
      destruct save; injection H as <-; exact Hx
  end.
Qed.

(** C5 (as amended): the record of a company whose evaluation ends in the
    handler has every close and both returns absent, the yearly start, the
    yearly end and the monthly end dates equal to 01-01-1000, and the
    monthly start date absent; and the frame that is ranked holds exactly
    the records without an absent cell, so none of these. *)
Theorem handler_record_is_dropped (E : Env) (company : string)
        (start end_ : date) (v : Z) (e : exn) :
  try_block E company start end_ v = Raise e ->
  caught e = true ->
  exists r,
    _parallel_momentum E company start end_ v = Ok r
    /\ yearly_start_date_close r = NA /\ yearly_end_date_close r = NA
    /\ monthly_start_date_close r = NA /\ monthly_end_date_close r = NA
    /\ return_yearly r = NA /\ return_monthly r = NA
    /\ yearly_start_date r = Some "01-01-1000"%string
    /\ yearly_end_date r = Some "01-01-1000"%string
    /\ monthly_end_date r = Some "01-01-1000"%string
    /\ monthly_start_date r = None
    /\ has_na r = true
    /\ (forall result_ ranked,
           rank result_ = Ok ranked ->
           (forall x, In x ranked <-> In x result_ /\ has_na x = false)
           /\ ~ In r ranked)
    /\ (forall sched data end_date top save v' out,
           momentum_strategy E sched data end_date top save v' = Ok out ->
           ~ In r (rows_of out)).
Proof.
  intros Ht Hc. exists (unusable_record company).
  rewrite (parallel_momentum_raise _ _ _ _ _ Ht), Hc.
  repeat (split; [reflexivity|]).
  split.
  - intros result_ ranked Hr. split; [apply rank_In, Hr|].
    intros Hin. apply (rank_In _ Hr) in Hin. destruct Hin as [_ Hin].
    discriminate Hin.
  - intros sched data end_date top save v' out Hout Hin.
    pose proof (momentum_strategy_output_usable _ _ _ _ _ _ _ Hout _ Hin) as Hx.
    discriminate Hx.
Qed.

Lemma handler_record_is_dropped_witness :
  exists r,
    _parallel_momentum (example_env 4) "NOPE" year_start year_end 1 = Ok r
    /\ monthly_start_date r = None /\ has_na r = true.
Proof.
  destruct (@handler_record_is_dropped (example_env 4) "NOPE" year_start
              year_end 1 KeyError eq_refl eq_refl)
    as [r [H1 [_ [_ [_ [_ [_ [_ [_ [_ [_ [H2 [H3 _]]]]]]]]]]]]].
  exists r. repeat split; assumption.
Defined.

(** C5 (as stated) fails: the record of a ticker the provider does not
    know has its monthly start date absent, not set to 01-01-1000. *)
Lemma monthly_start_date_counterexample :
  exists r,
    _parallel_momentum (example_env 4) "NOPE" year_start year_end 1 = Ok r
    /\ monthly_start_date r = None
    /\ monthly_start_date r <> Some "01-01-1000"%string.
Proof.
  eexists. split; [vm_compute; reflexivity|]. split; [reflexivity|discriminate].
Qed.

(** C7 (as amended): when the [try] block runs to its end, so that the
    handler does not replace its results, the yearly return of the record is
    the return formula applied to the last close as end price, the first
    close as start price and the duration 1. *)
Theorem yearly_return_is_annualized (E : Env) (company : string)
        (start end_ : date) (v : Z) (loc : momentum_locals) :
  try_block E company start end_ v = Ok loc ->
  exists df first last r,
    single_company_specific E (company ++ ".NS") start end_ = Ok df
    /\ iloc df 0 = Ok first /\ iloc df (-1) = Ok last
    /\ _parallel_momentum E company start end_ v = Ok r
    /\ annualized_rate_of_return E (Close last) (Close first) 1%Q
       = Ok (return_yearly r).
Proof.
  intros H.
  destruct (try_block_ok _ _ _ _ _ H)
    as [df [first [last [back30 [yearly [Hdf [H0 [H1 [_ [Hy [_ Hloc]]]]]]]]]]].
  destruct (parallel_momentum_ok _ _ _ _ _ H) as [r [Hr [_ Hry]]].
  exists df, first, last, r. repeat split; try assumption.
  rewrite Hry, Hloc. exact Hy.
Qed.

Lemma yearly_return_is_annualized_witness :
  exists df first last r,
    single_company_specific (example_env 4) ("A" ++ ".NS") year_start year_end
    = Ok df
    /\ iloc df 0 = Ok first /\ iloc df (-1) = Ok last
    /\ _parallel_momentum (example_env 4) "A" year_start year_end 1 = Ok r
    /\ annualized_rate_of_return (example_env 4) (Close last) (Close first) 1%Q
       = Ok (return_yearly r).
Proof.
  destruct (try_block (example_env 4) "A" year_start year_end 1) as [loc|e] eqn:E.
  - exact (@yearly_return_is_annualized (example_env 4) "A" year_start
             year_end 1 loc E).
  - vm_compute in E. discriminate E.
Defined.

(** C7 (as stated) fails: a series of one row is fetched without error,
    and the formula on its first and last close gives 0, but the record
    carries an absent yearly return, the thirty-row lookback having sent
    the evaluation to the handler. *)
Lemma short_series_counterexample :
  exists df first last r,
    single_company_specific (example_env 4) ("SHORT" ++ ".NS") year_start
                            year_end = Ok df
    /\ iloc df 0 = Ok first /\ iloc df (-1) = Ok last
    /\ annualized_rate_of_return (example_env 4) (Close last) (Close first) 1%Q
       = Ok (Num 0)
    /\ _parallel_momentum (example_env 4) "SHORT" year_start year_end 1 = Ok r
    /\ return_yearly r = NA.
Proof.
  eexists; eexists; eexists; eexists.
  split; [vm_compute; reflexivity|].
  split; [vm_compute; reflexivity|].
  split; [vm_compute; reflexivity|].
  split; [vm_compute; reflexivity|].
  split; [vm_compute; reflexivity|reflexivity].
Qed.


Lemma Pool_init_ok (n : Z) : 1 <= n -> Pool_init n = Ok (mk_pool n).
Proof.
  intros H. unfold Pool_init. destruct (Z.ltb_spec n 1); [lia|reflexivity].
Qed.

Lemma Pool_init_raise (n : Z) : n < 1 -> Pool_init n = Raise ValueError.
Proof.
  intros H. unfold Pool_init. destruct (Z.ltb_spec n 1); [reflexivity|lia].
Qed.

(** The run of [momentum_strategy] when the date parses, the machine has
    two cores or more, the list is not empty and every evaluation returns
    its record. *)
Lemma momentum_strategy_returns (E : Env) (sched : nat -> nat)
      (data : list string) (end_date : string) (top : Z) (save : bool)
      (v : Z) (end_ : date) (result_ : list MomentumRecord) :
  parse_end_date E end_date = Ok end_ ->
  2 <= cpu_count E ->
  data <> [] ->
  Forall2 (fun c r => _parallel_momentum E c (minus_one_year end_) end_ v = Ok r)
          data result_ ->
  momentum_strategy E sched data end_date top save v
  = Ok ((if save then Saved else Returned)
          (head top (sort_values_descending return_yearly
                                            (dropna has_na result_)))).
Proof.
  intros Hparse Hcpu Hne Hall. unfold momentum_strategy.
  rewrite Hparse. cbn [bind]. rewrite Pool_init_ok by lia. cbn [bind].
  rewrite (@starmap_all_ok _ _ _ (mk_pool (cpu_count E - 1)) sched data result_);
    [|cbn; lia|apply run_chunk_Forall2, Hall].
  cbn [bind]. unfold rank.
  destruct result_ as [|r0 rest].
  - inversion Hall. congruence.
  - cbn [bind]. destruct save; reflexivity.
Qed.

(** C6 (as amended): the usable records are sorted by [return_yearly]
    descending and by nothing else (a change of the records that leaves
    [return_yearly] and the absent cells as they are, a change of the
    company names for one, goes through the ranking), and the result is cut
    to its first [top_company_count] rows, at most 20 by default. *)
Theorem momentum_strategy_ranks_by_return (E : Env) (sched : nat -> nat)
        (data : list string) (end_date : string) (top : Z) (save : bool)
        (v : Z) (end_ : date) (result_ : list MomentumRecord) :
  parse_end_date E end_date = Ok end_ ->
  2 <= cpu_count E ->
  data <> [] ->
  Forall2 (fun c r => _parallel_momentum E c (minus_one_year end_) end_ v = Ok r)
          data result_ ->
  exists ranked,
    momentum_strategy E sched data end_date top save v
    = Ok ((if save then Saved else Returned) (head top ranked))
    /\ Permutation ranked (dropna has_na result_)
    /\ StronglySorted (not_above return_yearly) ranked
    /\ (forall g : MomentumRecord -> MomentumRecord,
           (forall r, return_yearly (g r) = return_yearly r) ->
           (forall r, has_na (g r) = has_na r) ->
           sort_values_descending return_yearly (dropna has_na (map g result_))
           = map g ranked)
    /\ (0 <= top -> head top ranked = firstn (Z.to_nat top) ranked)
    /\ len (head default_top_company_count ranked) <= 20.
Proof.
  intros Hparse Hcpu Hne Hall.
  exists (sort_values_descending return_yearly (dropna has_na result_)).
  split; [apply momentum_strategy_returns with (end_ := end_); assumption|].
  split; [apply sort_values_descending_perm|].
  split; [apply sort_values_descending_sorted|].
  split.
  - intros g Hg Hna. unfold dropna.
    rewrite filter_map_commute by (intros r; rewrite Hna; reflexivity).
    apply sort_values_descending_map, Hg.
  - split; [intros H; apply head_firstn, H|].
    rewrite head_length by (unfold default_top_company_count; lia).
    unfold default_top_company_count. lia.
Qed.

Lemma momentum_strategy_ranks_by_return_witness :
  exists ranked,
    momentum_strategy (example_env 4) in_order ["D"; "C"; "NOPE"; "A"]%string
                      "today" 2 false 1
    = Ok (Returned (head 2 ranked))
    /\ map company (head 2 ranked) = ["C"; "A"]%string.
Proof.
  destruct (@momentum_strategy_ranks_by_return (example_env 4) in_order
              ["D"; "C"; "NOPE"; "A"]%string "today" 2 false 1 year_end
              (match run_chunk (fun c => _parallel_momentum (example_env 4) c
                                           year_start year_end 1)
                               ["D"; "C"; "NOPE"; "A"]%string with
               | Ok rs => rs
               | Raise _ => []
               end))
    as [ranked [Hrun [Hperm _]]].
  - reflexivity.
  - cbn. lia.
  - discriminate.
  - apply run_chunk_Forall2. vm_compute. reflexivity.
  - exists ranked. split; [exact Hrun|].
    assert (Hv : momentum_strategy (example_env 4) in_order
                   ["D"; "C"; "NOPE"; "A"]%string "today" 2 false 1
                 = Ok (Returned
                         (head 2 (sort_values_descending return_yearly
                            (dropna has_na
                               (match run_chunk
                                        (fun c => _parallel_momentum
                                                    (example_env 4) c
                                                    year_start year_end 1)
                                        ["D"; "C"; "NOPE"; "A"]%string with
                                | Ok rs => rs
                                | Raise _ => []
                                end))))))
      by (vm_compute; reflexivity).
    rewrite Hv in Hrun. injection Hrun as <-. vm_compute. reflexivity.
Defined.

(** C6 (as stated) fails: two companies with the same yearly return come
    out in the order of the company list, B before A, and in the other
    order when the list is the other way round: the name breaks no tie. *)
Lemma tie_break_counterexample :
  exists rb ra,
    momentum_strategy (example_env 4) in_order ["B"; "A"]%string
                      "today" 20 false 1
    = Ok (Returned [rb; ra])
    /\ momentum_strategy (example_env 4) in_order ["A"; "B"]%string
                         "today" 20 false 1
       = Ok (Returned [ra; rb])
    /\ company rb = "B"%string /\ company ra = "A"%string
    /\ return_yearly rb = return_yearly ra
    /\ String.ltb (company ra) (company rb) = true.
Proof.
  eexists; eexists.
  split; [vm_compute; reflexivity|].
  split; [vm_compute; reflexivity|].
  repeat split.
Qed.

(** C3: with the same collaborators, on machines of two cores or more
    (pools of one worker or more), two runs of [momentum_strategy] leave the
    same output whatever the sizes of the pools and the completion orders;
    and when the date parses, the list is not empty and every evaluation
    returns its record, both runs return that output. *)
Theorem momentum_strategy_schedule_independent (E : Env)
        (n1 n2 : Z) (sched1 sched2 : nat -> nat) (data : list string)
        (end_date : string) (top : Z) (save : bool) (v : Z) :
  2 <= n1 -> 2 <= n2 ->
  output_of (momentum_strategy (with_cores E n1) sched1 data end_date top save v)
  = output_of (momentum_strategy (with_cores E n2) sched2 data end_date top save v)
  /\ (forall end_ result_,
         parse_end_date E end_date = Ok end_ ->
         data <> [] ->
         Forall2 (fun c r => _parallel_momentum E c (minus_one_year end_) end_ v
                             = Ok r) data result_ ->
         exists out,
           momentum_strategy (with_cores E n1) sched1 data end_date top save v
           = Ok out
           /\ momentum_strategy (with_cores E n2) sched2 data end_date top save v
              = Ok out).
Proof.
  intros H1 H2. split.
  - unfold momentum_strategy.
    change (parse_end_date (with_cores E n1) end_date)
      with (parse_end_date E end_date).
    change (parse_end_date (with_cores E n2) end_date)
      with (parse_end_date E end_date).
    destruct (parse_end_date E end_date) as [end_|e]; [|reflexivity].
    cbn [bind with_cores cpu_count].
    rewrite !Pool_init_ok by lia. cbn [bind].
    change (fun company => _parallel_momentum (with_cores E n1) company
                             (minus_one_year end_) end_ v)
      with (fun company => _parallel_momentum E company
                             (minus_one_year end_) end_ v).
    change (fun company => _parallel_momentum (with_cores E n2) company
                             (minus_one_year end_) end_ v)
      with (fun company => _parallel_momentum E company
                             (minus_one_year end_) end_ v).
    set (f := fun company => _parallel_momentum E company
                               (minus_one_year end_) end_ v).
    destruct (run_chunk f data) as [rs|e0] eqn:Erun.
    + rewrite !(@starmap_all_ok _ _ f _ _ data rs) by (cbn; try lia; exact Erun).
      reflexivity.
    + destruct (@starmap_some_raise _ _ f (mk_pool (n1 - 1)) sched1 data e0)
        as [e1 [-> _]]; [cbn; lia|exact Erun|].
      destruct (@starmap_some_raise _ _ f (mk_pool (n2 - 1)) sched2 data e0)
        as [e2 [-> _]]; [cbn; lia|exact Erun|].
      reflexivity.
  - intros end_ result_ Hparse Hne Hall. eexists. split.
    + apply (@momentum_strategy_returns (with_cores E n1) sched1 data end_date
               top save v end_ result_); try assumption; cbn; lia.
    + apply (@momentum_strategy_returns (with_cores E n2) sched2 data end_date
               top save v end_ result_); try assumption; cbn; lia.
Qed.

Lemma momentum_strategy_schedule_independent_witness :
  output_of (momentum_strategy (with_cores (example_env 4) 2) in_order
                               watch_list "today" 3 false 1)
  = output_of (momentum_strategy (with_cores (example_env 4) 9) last_first
                                 watch_list "today" 3 false 1)
  /\ option_map (fun o => map company (rows_of o))
                (output_of (momentum_strategy (with_cores (example_env 4) 9)
                                              last_first watch_list "today"
                                              3 false 1))
     = Some ["C"; "B"; "A"]%string.
Proof.
  split.
  - apply (@momentum_strategy_schedule_independent (example_env 4) 2 9
             in_order last_first watch_list "today" 3 false 1); lia.
  - vm_compute. reflexivity.
Defined.


(** C8 (as amended): the pool is asked for [cpu_count() - 1] workers, with
    no lower bound.  With two cores or more the pool has that size and the
    run goes on with it; with one core the size asked for is 0, the pool
    cannot be made, and the run ends with [ValueError]. *)
Theorem pool_size_is_cores_minus_one (E : Env) (sched : nat -> nat)
        (data : list string) (end_date : string) (top : Z) (save : bool)
        (v : Z) (end_ : date) :
  parse_end_date E end_date = Ok end_ ->
  (2 <= cpu_count E ->
   Pool_init (cpu_count E - 1) = Ok (mk_pool (cpu_count E - 1))
   /\ momentum_strategy E sched data end_date top save v
      = (result_ <- starmap (mk_pool (cpu_count E - 1)) sched
                            (fun company =>
                               _parallel_momentum E company
                                                  (minus_one_year end_) end_ v)
                            data ;;
         momentum_df <- rank result_ ;;
         if save then Ok (Saved (head top momentum_df))
         else Ok (Returned (head top momentum_df))))
  /\ (cpu_count E <= 1 ->
      Pool_init (cpu_count E - 1) = Raise ValueError
      /\ momentum_strategy E sched data end_date top save v = Raise ValueError).
Proof.
  intros Hparse. split; intros Hc.
  - split; [apply Pool_init_ok; lia|].
    unfold momentum_strategy. rewrite Hparse. cbn [bind].
    rewrite Pool_init_ok by lia. reflexivity.
  - split; [apply Pool_init_raise; lia|].
    unfold momentum_strategy. rewrite Hparse. cbn [bind].
    rewrite Pool_init_raise by lia. reflexivity.
Qed.

Lemma pool_size_is_cores_minus_one_witness :
  Pool_init (cpu_count (example_env 4) - 1) = Ok (mk_pool 3)
  /\ Pool_init (cpu_count (example_env 1) - 1) = Raise ValueError.
Proof.
  split.
  - exact (proj1 (proj1 (@pool_size_is_cores_minus_one (example_env 4) in_order
                           ["A"]%string "today" 20 false 1 year_end eq_refl)
                        ltac:(cbn; lia))).
  - exact (proj1 (proj2 (@pool_size_is_cores_minus_one (example_env 1) in_order
                           ["A"]%string "today" 20 false 1 year_end eq_refl)
                        ltac:(cbn; lia))).
Defined.

(** C8 (as stated) fails: on a machine with one logical core the size
    asked for is 0, not 1, the pool is not made, and [momentum_strategy]
    ends with [ValueError]. *)
Lemma single_core_counterexample :
  cpu_count (example_env 1) - 1 = 0
  /\ Pool_init (cpu_count (example_env 1) - 1) = Raise ValueError
  /\ momentum_strategy (example_env 1) in_order ["A"]%string
                       "today" 20 false 1
     = Raise ValueError.
Proof. repeat split. Qed.

Lemma is_unique_false (keys : list string) :
  ~ NoDup keys -> is_unique keys = false.
Proof.
  intros H. destruct (is_unique keys) eqn:E; [|reflexivity].
  apply is_unique_NoDup in E. contradiction.
Qed.

(** The merge call that [momentum_with_ema_strategy] writes, taken alone on
    two tables, joins on [company] one to one.  A company that appears more
    than once on either side is a [MergeError]; with no company twice on
    either side and the same companies on both, the result has one row per
    row of the momentum table, in its order, each paired with the row of
    the EMA table that carries the same company. *)
Theorem merge_is_one_to_one (momentum_df : list MomentumRecord)
        (ema_df : list EMARecord) :
  (~ NoDup (map company momentum_df) \/ ~ NoDup (map ema_company ema_df) ->
   merge momentum_df (Some ema_df) = Raise MergeError)
  /\ (NoDup (map company momentum_df) ->
      NoDup (map ema_company ema_df) ->
      (forall k, In k (map company momentum_df)
                 <-> In k (map ema_company ema_df)) ->
      exists rows,
        merge momentum_df (Some ema_df) = Ok rows
        /\ map fst rows = momentum_df
        /\ List.length rows = List.length momentum_df
        /\ Forall (fun lr => In (snd lr) ema_df
                             /\ ema_company (snd lr) = company (fst lr)) rows).
Proof.
  split.
  - intros H. unfold merge, merge_one_to_one.
    destruct H as [H|H]; rewrite (is_unique_false H);
      [reflexivity|rewrite andb_false_r; reflexivity].
  - intros Hl Hr Hsame. unfold merge, merge_one_to_one.
    rewrite (proj2 (is_unique_NoDup _) Hl), (proj2 (is_unique_NoDup _) Hr).
    cbn [andb].
    destruct (@merge_rows _ _ company ema_company momentum_df ema_df Hr)
      as [Hfst Hkeys]; [intros k Hk; apply Hsame, Hk|].
    eexists. split; [reflexivity|]. split; [exact Hfst|].
    split; [|exact Hkeys].
    rewrite <- Hfst at 2. rewrite length_map. reflexivity.
Qed.

Lemma NoDup_strings (l : list string) : is_unique l = true -> NoDup l.
Proof. apply is_unique_NoDup. Qed.

Lemma merge_is_one_to_one_witness :
  merge momentum_table (Some ema_table_twice) = Raise MergeError
  /\ exists rows,
      merge momentum_table (Some ema_table) = Ok rows
      /\ map fst rows = momentum_table
      /\ List.length rows = List.length momentum_table
      /\ Forall (fun lr => In (snd lr) ema_table
                           /\ ema_company (snd lr) = company (fst lr)) rows.
Proof.
  split.
  - apply (proj1 (merge_is_one_to_one momentum_table ema_table_twice)).
    right. intros H. apply is_unique_NoDup in H. vm_compute in H.
    discriminate H.
  - apply (proj2 (merge_is_one_to_one momentum_table ema_table)).
    + apply NoDup_strings. vm_compute. reflexivity.
    + apply NoDup_strings. vm_compute. reflexivity.
    + intros k. vm_compute. tauto.
Defined.

(** C9 (the code where it departs from the claim): for a company list that
    names a company twice, the momentum table holds that company twice, and
    the merge call the method writes raises [MergeError] on that table
    whatever the EMA table is; but the run never comes to the call: it ends
    with the [TypeError] of [Indicator(company_name=...)], saved or not.
    For a list without a repeated company the run ends the same way, with
    no merged row. *)
Theorem duplicate_company_never_reaches_the_merge :
  exists momentum_df,
    momentum_strategy (example_env 4) in_order ["A"; "A"]%string
                      "today" 20 false 1
    = Ok (Returned momentum_df)
    /\ map company momentum_df = ["A"; "A"]%string
    /\ (forall ema_df, merge momentum_df (Some ema_df) = Raise MergeError)
    /\ (forall save,
           momentum_with_ema_strategy (example_env 4) in_order
                                      ["A"; "A"]%string
                                      "today" 20 (50, 200) save 1
           = Raise TypeError)
    /\ (forall save,
           momentum_with_ema_strategy (example_env 4) in_order
                                      ["A"; "C"]%string
                                      "today" 20 (50, 200) save 1
           = Raise TypeError).
Proof.
  eexists.
  split; [vm_compute; reflexivity|].
  split; [reflexivity|].
  split; [intros ema_df; reflexivity|].
  split; intros save; destruct save; vm_compute; reflexivity.
Qed.

Lemma momentum_strategy_unsaved (E : Env) (sched : nat -> nat)
      (data : list string) (end_date : string) (top : Z) (v : Z)
      (m : outcome (list MomentumRecord)) :
  momentum_strategy E sched data end_date top false v = Ok m ->
  exists df, m = Returned df.
Proof.
  unfold momentum_strategy. intros H. peel H. peel H. peel H. peel H.
  injection H as <-. eexists. reflexivity.
Qed.

(** C10 (as amended): [momentum_with_ema_strategy] never leaves a merged
    report.  When its momentum stage returns a table, the call ends with
    the [TypeError] of [Indicator(company_name=...)], whose [__init__]
    takes [path] only; when the momentum stage raises, that exception is
    the one that ends the call.  The call of [ema_indicator] with
    [ema_canditate], [cutoff_date] and [save] would be a [TypeError] as
    well, and so would the merge with the nothing it returns. *)
Theorem momentum_with_ema_strategy_never_merges (E : Env) (sched : nat -> nat)
        (data : list string) (end_date : string) (top : Z)
        (ema_canditate : Z * Z) (save : bool) (v : Z) :
  (forall m,
      momentum_strategy E sched data end_date top false v = Ok m ->
      momentum_with_ema_strategy E sched data end_date top ema_canditate save v
      = Raise TypeError)
  /\ (forall e,
         momentum_strategy E sched data end_date top false v = Raise e ->
         momentum_with_ema_strategy E sched data end_date top ema_canditate
                                    save v
         = Raise e)
  /\ output_of (momentum_with_ema_strategy E sched data end_date top
                                           ema_canditate save v) = None
  /\ (forall names,
         Indicator_init E [("company_name"%string, ArgNames names)]
         = Raise TypeError)
  /\ (forall self cutoff_date,
         ema_indicator E self
                       [("ema_canditate"%string,
                         ArgPair (fst ema_canditate) (snd ema_canditate));
                        ("cutoff_date"%string, cutoff_date);
                        ("save"%string, ArgBool false);
                        ("verbosity"%string, ArgInt v)]
         = Raise TypeError)
  /\ (forall momentum_df ret,
         merge momentum_df (returned_frame ret) = Raise TypeError).
Proof.
  assert (H1 : forall m,
             momentum_strategy E sched data end_date top false v = Ok m ->
             momentum_with_ema_strategy E sched data end_date top
                                        ema_canditate save v
             = Raise TypeError).
  { intros m Hm. destruct (momentum_strategy_unsaved _ _ _ _ _ _ Hm) as [df ->].
    unfold momentum_with_ema_strategy. rewrite Hm. reflexivity. }
  assert (H2 : forall e,
             momentum_strategy E sched data end_date top false v = Raise e ->
             momentum_with_ema_strategy E sched data end_date top
                                        ema_canditate save v
             = Raise e).
  { intros e He. unfold momentum_with_ema_strategy. rewrite He. reflexivity. }
  split; [exact H1|]. split; [exact H2|]. split.
  - destruct (momentum_strategy E sched data end_date top false v) as [m|e] eqn:Em.
    + rewrite (H1 m eq_refl). reflexivity.
    + rewrite (H2 e eq_refl). reflexivity.
  - repeat split; reflexivity.
Qed.

Lemma momentum_with_ema_strategy_never_merges_witness :
  momentum_with_ema_strategy (example_env 4) in_order ["A"; "C"]%string
                             "today" 20 (50, 200) false 1
  = Raise TypeError.
Proof.
  destruct (momentum_strategy (example_env 4) in_order ["A"; "C"]%string
                              "today" 20 false 1) as [m|e] eqn:Em.
  - exact (proj1 (@momentum_with_ema_strategy_never_merges (example_env 4)
                    in_order ["A"; "C"]%string "today" 20 (50, 200) false 1)
                 m Em).
  - vm_compute in Em. discriminate Em.
Defined.

(** C10 (as stated) fails: on a machine with one core the momentum stage
    ends with the [ValueError] of the pool, and for an empty company list
    with the [KeyError] of the sort; the call ends with that exception, not
    with a [TypeError]. *)
Lemma not_always_TypeError_counterexample :
  momentum_with_ema_strategy (example_env 1) in_order ["A"; "C"]%string
                             "today" 20 (50, 200) false 1
  = Raise ValueError
  /\ momentum_with_ema_strategy (example_env 4) in_order []
                                "today" 20 (50, 200) false 1
     = Raise KeyError
  /\ momentum_with_ema_strategy (example_env 4) in_order ["A"; "C"]%string
                                "2020-01-31" 20 (50, 200) false 1
     = Raise ValueError.
Proof. repeat split. Qed.

End StrategyFacts.

(** ** More on the moving average *)

Module IndicatorMore.
Import Indicator Examples MoreExamples IndicatorFacts.

(** X1: for a positive period the call returns a value exactly on series
    longer than the period and of at least 52 observations; on a series no
    longer than the period it raises [IndexError], and on a longer series
    of at most 51 observations [UnboundLocalError]. *)
Theorem ema_outcome (data : list Q) (period s : Z) :
  0 < period ->
  (len data <= period ->
   _exponential_moving_avarage data period s = Raise IndexError)
  /\ (period < len data <= 51 ->
      _exponential_moving_avarage data period s = Raise UnboundLocalError)
  /\ (period < len data -> 52 <= len data ->
      exists v, _exponential_moving_avarage data period s = Ok v)
  /\ (is_ok (_exponential_moving_avarage data period s) = true
      <-> period < len data /\ 52 <= len data).
Proof.
  intros Hp.
  assert (H1 : len data <= period ->
               _exponential_moving_avarage data period s = Raise IndexError)
    by (intros H; apply ema_too_few; assumption).
  assert (H2 : period < len data <= 51 ->
               _exponential_moving_avarage data period s
               = Raise UnboundLocalError)
    by (intros H; apply ema_short_series; lia).
  assert (H3 : period < len data -> 52 <= len data ->
               exists v, _exponential_moving_avarage data period s = Ok v).
  { intros Hl H52.
    destruct (@ema_long_series data period s ltac:(lia) H52) as [x [_ Hx]].
    eexists. exact Hx. }
  repeat split; try assumption.
  - destruct (Z.le_gt_cases (len data) period) as [Hle|Hgt]; [|lia].
    rewrite (H1 Hle) in H. discriminate H.
  - destruct (Z.le_gt_cases (len data) period) as [Hle|Hgt].
    + rewrite (H1 Hle) in H. discriminate H.
    + destruct (Z.le_gt_cases 52 (len data)) as [?|Hlt]; [assumption|].
      rewrite H2 in H by lia. discriminate H.
  - intros [Hl H52]. destruct (H3 Hl H52) as [v ->]. reflexivity.
Qed.

Lemma ema_outcome_witness :
  is_ok (_exponential_moving_avarage series53 3 2) = true.
Proof.
  apply (proj2 (proj2 (proj2 (proj2 (@ema_outcome series53 3 2 ltac:(lia)))))).
  vm_compute. split; [reflexivity|discriminate].
Defined.

(** X2: a period of 0 divides the empty sum by zero, and a period of -1
    makes the multiplier a division by zero: both raise
    [ZeroDivisionError] whatever the series. *)
Theorem ema_degenerate_period (data : list Q) (s : Z) :
  _exponential_moving_avarage data 0 s = Raise ZeroDivisionError
  /\ _exponential_moving_avarage data (-1) s = Raise ZeroDivisionError.
Proof.
  split; unfold _exponential_moving_avarage.
  - rewrite truediv_Z by lia. cbn [bind]. rewrite truediv_zero. reflexivity.
  - change (1 + -1) with 0. rewrite truediv_zero. reflexivity.
Qed.


Lemma slice_to_firstn (data : list Q) (period : Z) :
  0 < period < len data ->
  slice_to data period = firstn (Z.to_nat period) data.
Proof.
  intros H. unfold slice_to. destruct (Z.ltb_spec period 0); [lia|].
  rewrite Z.min_l by lia. reflexivity.
Qed.

Lemma fold_sum_bounds (lo hi : Q) (l : list Q) :
  Forall (fun x => lo <= x /\ x <= hi)%Q l ->
  forall a : Q,
    (a + inject_Z (len l) * lo <= fold_left Qplus l a)%Q
    /\ (fold_left Qplus l a <= a + inject_Z (len l) * hi)%Q.
Proof.
  induction 1 as [|x l [Hlo Hhi] Hl IH]; intros a.
  - unfold len. cbn [List.length Z.of_nat fold_left].
    change (inject_Z 0) with 0%Q. split; lra.
  - cbn [fold_left]. destruct (IH (a + x)%Q) as [IH1 IH2].
    unfold len in *. cbn [List.length]. rewrite Nat2Z.inj_succ.
    unfold Z.succ. rewrite inject_Z_plus.
    split; [eapply Qle_trans; [|exact IH1]|eapply Qle_trans; [exact IH2|]];
      change (inject_Z 1) with 1%Q; lra.
Qed.

Lemma getitem_In (A : Type) (l : list A) (i : Z) (x : A) :
  getitem l i = Ok x -> In x l.
Proof.
  unfold getitem. intros H.
  destruct ((_ <? 0) || (len l <=? _)); [discriminate|].
  destruct (nth_error l _) as [y|] eqn:E; [|discriminate].
  injection H as <-. eapply nth_error_In. exact E.
Qed.

(** X5: the observations between the seed and position 51 are never
    read: two series of the same length that agree on their first
    [period + 1] observations and from position 51 on give the same
    result. *)
Theorem ema_ignores_the_gap (data1 data2 : list Q) (period s : Z) :
  0 < period ->
  List.length data1 = List.length data2 ->
  firstn (Z.to_nat period + 1) data1 = firstn (Z.to_nat period + 1) data2 ->
  skipn 51 data1 = skipn 51 data2 ->
  _exponential_moving_avarage data1 period s
  = _exponential_moving_avarage data2 period s.
Proof.
  intros Hp Hlen Hfirst Hskip.
  assert (Hl : len data1 = len data2) by (unfold len; congruence).
  destruct (Z.le_gt_cases (len data1) period) as [Hle|Hgt].
  { rewrite !ema_too_few by lia. reflexivity. }
  destruct (Z.le_gt_cases (len data1) 51) as [H51|H52].
  { rewrite !ema_short_series by lia. reflexivity. }
  destruct (@ema_long_series data1 period s ltac:(lia) ltac:(lia))
    as [x1 [Hx1 ->]].
  destruct (@ema_long_series data2 period s ltac:(lia) ltac:(lia))
    as [x2 [Hx2 ->]].
  rewrite !slice_to_firstn by lia.
  assert (Hf : firstn (Z.to_nat period) data1 = firstn (Z.to_nat period) data2).
  { assert (Hcut : forall d : list Q,
               firstn (Z.to_nat period) d
               = firstn (Z.to_nat period) (firstn (Z.to_nat period + 1) d)).
    { intros d. rewrite firstn_firstn, Nat.min_l by lia. reflexivity. }
    rewrite (Hcut data1), (Hcut data2), Hfirst. reflexivity. }
  assert (Hx : x1 = x2).
  { destruct (@getitem_nonneg Q data1 period ltac:(lia)) as [y1 [Hn1 Hy1]].
    destruct (@getitem_nonneg Q data2 period ltac:(lia)) as [y2 [Hn2 Hy2]].
    rewrite Hy1 in Hx1. rewrite Hy2 in Hx2.
    injection Hx1 as <-. injection Hx2 as <-.
    assert (Hnth : forall d : list Q,
               nth_error d (Z.to_nat period)
               = nth_error (firstn (Z.to_nat period + 1) d) (Z.to_nat period)).
    { intros d. rewrite nth_error_firstn.
      destruct (Nat.ltb_spec (Z.to_nat period) (Z.to_nat period + 1));
        [reflexivity|lia]. }
    rewrite Hnth in Hn1, Hn2. rewrite Hfirst in Hn1. congruence. }
  rewrite Hf, Hx, Hskip. reflexivity.
Qed.

Lemma ema_ignores_the_gap_witness :
  _exponential_moving_avarage series53 3 2
  = _exponential_moving_avarage series53_gap 3 2.
Proof.
  apply ema_ignores_the_gap; [lia|reflexivity|reflexivity|reflexivity].
Defined.

End IndicatorMore.

(** ** The EMA table *)

Module IndicatorObjectFacts.
Import Indicator IndicatorObject Examples MoreExamples IndicatorFacts IndicatorMore More.

Lemma ema_row_enough (company : string) (df : frame) :
  enough_closes df = true ->
  exists e50 e200,
    _exponential_moving_avarage (closes df) 50 2 = Ok e50
    /\ _exponential_moving_avarage (closes df) 200 2 = Ok e200
    /\ ema_row company df
       = Ok (mk_ema_record company e50 e200
                           (if Qle_bool e50 e200 then "sell" else "buy")).
Proof.
  unfold enough_closes. intros H. apply Z.leb_le in H.
  destruct (@ema_long_series (closes df) 50 2 ltac:(lia) ltac:(lia))
    as [x50 [_ H50]].
  destruct (@ema_long_series (closes df) 200 2 ltac:(lia) ltac:(lia))
    as [x200 [_ H200]].
  cbn zeta in H50, H200. eexists; eexists.
  split; [exact H50|]. split; [exact H200|].
  unfold ema_row. rewrite H50, H200. reflexivity.
Qed.

Lemma ema_row_too_few (company : string) (df : frame) :
  enough_closes df = false -> exists e, ema_row company df = Raise e.
Proof.
  unfold enough_closes. intros H. apply Z.leb_gt in H. unfold ema_row.
  destruct (_exponential_moving_avarage (closes df) 50 2) as [e50|e] eqn:E50;
    [|exists e; reflexivity].
  cbn [bind]. rewrite (@ema_too_few (closes df) 200 2) by lia.
  exists IndexError. reflexivity.
Qed.

Lemma action_of_row (e50 e200 : Q) :
  let a := (if Qle_bool e50 e200 then "sell" else "buy")%string in
  (a = "buy"%string <-> (e200 < e50)%Q)
  /\ (a = "sell"%string <-> (e50 <= e200)%Q).
Proof.
  cbn zeta. destruct (Qle_bool e50 e200) eqn:E.
  - apply Qle_bool_iff in E. split; split; intros H; try discriminate;
      try reflexivity; try assumption.
    exfalso. apply (Qlt_not_le _ _ H). exact E.
  - assert (Hlt : (e200 < e50)%Q).
    { apply Qnot_le_lt. intros Hle. apply Qle_bool_iff in Hle. congruence. }
    split; split; intros H; try discriminate; try reflexivity;
      try assumption.
    exfalso. apply (Qlt_not_le _ _ Hlt). exact H.
Qed.

(** The loop of [ema_indicator] when every fetch returns: the companies
    with enough closes are appended to the table in their order, the
    others to the list of invalid companies. *)
Lemma ema_rows_partition (E : Env) (frames : string -> frame)
      (companies : list string) :
  (forall c, In c companies ->
             single_company_complete E (c ++ ".NS") = Ok (frames c)) ->
  forall table invalid,
  exists rows,
    ema_rows E companies table invalid
    = Ok ((table ++ rows)%list,
          (invalid ++ filter (fun c => negb (enough_closes (frames c)))
                             companies)%list)
    /\ map ema_company rows
       = filter (fun c => enough_closes (frames c)) companies
    /\ Forall (ema_row_of frames) rows.
Proof.
  induction companies as [|c cs IH]; intros Hfetch table invalid.
  - exists []. cbn. rewrite !app_nil_r. repeat split. constructor.
  - cbn [ema_rows]. rewrite (Hfetch c (or_introl eq_refl)). cbn [bind].
    assert (Hcs : forall c', In c' cs ->
                    single_company_complete E (c' ++ ".NS") = Ok (frames c'))
      by (intros c' H'; apply Hfetch; right; exact H').
    cbn [filter]. destruct (enough_closes (frames c)) eqn:Een.
    + destruct (ema_row_enough c _ Een) as [e50 [e200 [H50 [H200 ->]]]].
      destruct (IH Hcs (table ++ [mk_ema_record c e50 e200
                                    (if Qle_bool e50 e200 then "sell"
                                     else "buy")])%list invalid)
        as [rows [Hrun [Hnames Hrows]]].
      eexists (_ :: rows). rewrite Hrun. cbn [negb].
      rewrite <- app_assoc. cbn [app]. split; [reflexivity|].
      cbn [map ema_company]. split; [f_equal; exact Hnames|].
      constructor; [|exact Hrows].
      unfold ema_row_of. cbn [ema_company ema50 ema200 action].
      split; [exact H50|]. split; [exact H200|]. apply action_of_row.
    + destruct (ema_row_too_few c _ Een) as [e ->].
      destruct (IH Hcs table (invalid ++ [c])%list)
        as [rows [Hrun [Hnames Hrows]]].
      exists rows. rewrite Hrun. cbn [negb]. rewrite <- app_assoc.
      cbn [app]. repeat split; assumption.
Qed.

Lemma closes_length (df : frame) :
  no_close_missing df = true -> len (closes df) = len df.
Proof.
  unfold len, no_close_missing, closes.
  induction df as [|r t IH]; cbn [forallb flat_map]; [reflexivity|].
  intros H. apply andb_true_iff in H. destruct H as [Hr Ht].
  rewrite length_app, (Nat2Z.inj_add _ _), (IH Ht).
  destruct (Close r); cbn in Hr; try discriminate Hr.
  cbn [List.length]. lia.
Qed.

Lemma enough_closes_rows (df : frame) :
  no_close_missing df = true -> enough_closes df = enough_rows df.
Proof.
  intros H. unfold enough_closes, enough_rows. rewrite (closes_length _ H).
  reflexivity.
Qed.

Lemma bind_keywords_declared (params : list string)
      (kwargs : list (string * arg)) :
  forallb (fun kv => mem (fst kv) params) kwargs = true ->
  bind_keywords params [] kwargs = Ok kwargs.
Proof.
  intros H. unfold bind_keywords. rewrite H. reflexivity.
Qed.

(** X6: when every fetch returns a frame that misses no close, the table
    [ema_indicator] writes holds one row per company whose frame has at
    least 201 rows, in the order of the company list, and no row for any
    other company; the call returns nothing. *)
Theorem ema_table_companies (E : Env) (self : Indicator)
        (frames : string -> frame) (companies : list string)
        (kwargs : list (string * arg)) :
  data self = Some companies ->
  forallb (fun kv => mem (fst kv) ema_indicator_keywords) kwargs = true ->
  (forall c, In c companies ->
             single_company_complete E (c ++ ".NS") = Ok (frames c)) ->
  (forall c, In c companies -> no_close_missing (frames c) = true) ->
  exists table,
    ema_indicator E self kwargs = Ok (table, tt)
    /\ map ema_company table
       = filter (fun c => enough_rows (frames c)) companies.
Proof.
  intros Hdata Hkw Hfetch Hfull. unfold ema_indicator.
  unfold ema_indicator_keywords in Hkw.
  rewrite (bind_keywords_declared _ _ Hkw). cbn [bind]. rewrite Hdata.
  destruct (ema_rows_partition E frames companies Hfetch [] [])
    as [rows [Hrun [Hnames _]]].
  exists rows. rewrite Hrun. cbn [bind fst app]. split; [reflexivity|].
  rewrite Hnames. apply filter_ext_in. intros c Hc.
  apply enough_closes_rows, Hfull, Hc.
Qed.

(** X7: when every fetch returns a frame that misses no close, every row
    of that table carries the two moving averages of the [Close] column of
    its company, of periods 50 and 200, and the action "buy" exactly when
    the first is above the second, "sell" otherwise. *)
Theorem ema_table_rows (E : Env) (self : Indicator)
        (frames : string -> frame) (companies : list string)
        (kwargs : list (string * arg)) (table : list EMARecord) :
  data self = Some companies ->
  (forall c, In c companies ->
             single_company_complete E (c ++ ".NS") = Ok (frames c)) ->
  (forall c, In c companies -> no_close_missing (frames c) = true) ->
  ema_indicator E self kwargs = Ok (table, tt) ->
  Forall (ema_row_of frames) table.
Proof.
  intros Hdata Hfetch _. unfold ema_indicator.
  destruct (bind_keywords _ _ kwargs); cbn [bind]; [|discriminate].
  rewrite Hdata.
  destruct (ema_rows_partition E frames companies Hfetch [] [])
    as [rows [Hrun [_ Hrows]]].
  rewrite Hrun. cbn [bind fst app]. intros H. injection H as <-. exact Hrows.
Qed.

(** X8: the fetch is outside the [try]: when the provider raises for a
    company, the companies before it having been fetched, the call ends
    with that exception and no table is written. *)
Theorem ema_fetch_failure_propagates (E : Env) (self : Indicator)
        (frames : string -> frame) (before after : list string) (c : string)
        (e : exn) (kwargs : list (string * arg)) :
  data self = Some (before ++ c :: after)%list ->
  forallb (fun kv => mem (fst kv) ema_indicator_keywords) kwargs = true ->
  (forall c', In c' before ->
              single_company_complete E (c' ++ ".NS") = Ok (frames c')) ->
  single_company_complete E (c ++ ".NS") = Raise e ->
  ema_indicator E self kwargs = Raise e.
Proof.
  intros Hdata Hkw Hfetch Hc. unfold ema_indicator.
  unfold ema_indicator_keywords in Hkw.
  rewrite (bind_keywords_declared _ _ Hkw). cbn [bind]. rewrite Hdata.
  assert (Hrows : forall table invalid,
             ema_rows E (before ++ c :: after) table invalid = Raise e).
  { clear Hdata. induction before as [|b bs IH]; intros table invalid.
    - cbn [app ema_rows]. rewrite Hc. reflexivity.
    - cbn [app ema_rows]. rewrite (Hfetch b (or_introl eq_refl)). cbn [bind].
      assert (Hbs : forall c', In c' bs ->
                      single_company_complete E (c' ++ ".NS") = Ok (frames c'))
        by (intros c' H'; apply Hfetch; right; exact H').
      destruct (ema_row b (frames b)); apply IH; exact Hbs. }
  rewrite Hrows. reflexivity.
Qed.

(** X9: an [Indicator] made from a path whose file name does not contain
    "yaml" has no company list, and [ema_indicator] on it raises
    [AttributeError]. *)
Theorem ema_indicator_without_yaml (E : Env) (p : string)
        (kwargs : list (string * arg)) :
  contains "yaml" (basename p) = false ->
  forallb (fun kv => mem (fst kv) ema_indicator_keywords) kwargs = true ->
  exists self,
    Indicator_init E [("path"%string, ArgStr p)] = Ok self
    /\ data self = None
    /\ ema_indicator E self kwargs = Raise AttributeError.
Proof.
  intros Hp Hkw. exists (mk_indicator p None).
  split.
  - unfold Indicator_init. cbn. rewrite Hp. reflexivity.
  - split; [reflexivity|]. unfold ema_indicator.
    unfold ema_indicator_keywords in Hkw.
  rewrite (bind_keywords_declared _ _ Hkw). reflexivity.
Qed.

End IndicatorObjectFacts.

(** ** More on the strategies *)

Module StrategyMore.
Import DataFrame Multiprocessing Strategy Examples.
Import IndicatorFacts MultiprocessingFacts DataFrameFacts StrategyFacts.

Lemma getitem_before_start (A : Type) (l : list A) (i : Z) :
  i < 0 -> len l < - i -> getitem l i = Raise IndexError.
Proof.
  intros Hi Hl. unfold getitem. destruct (Z.ltb_spec i 0); [|lia].
  destruct (Z.ltb_spec (i + len l) 0); [reflexivity|lia].
Qed.

(** X10: every record [_parallel_momentum] returns carries the company it
    was asked for, and its monthly end date and close are its yearly end
    date and close; its yearly dates are never absent. *)
Theorem record_invariants (E : Env) (company : string) (start end_ : date)
        (v : Z) (r : MomentumRecord) :
  _parallel_momentum E company start end_ v = Ok r ->
  Strategy.company r = company
  /\ monthly_end_date r = yearly_end_date r
  /\ monthly_end_date_close r = yearly_end_date_close r
  /\ yearly_start_date r <> None /\ yearly_end_date r <> None.
Proof.
  unfold _parallel_momentum. intros H.
  repeat (peel H).
  injection H as <-. cbn. repeat split; discriminate.
Qed.

Lemma record_invariants_witness :
  exists r,
    _parallel_momentum (example_env 4) "C" year_start year_end 1 = Ok r
    /\ Strategy.company r = "C"%string
    /\ monthly_end_date r = yearly_end_date r.
Proof.
  destruct (_parallel_momentum (example_env 4) "C" year_start year_end 1)
    as [r|e] eqn:Er.
  - exists r. split; [reflexivity|].
    destruct (record_invariants _ _ _ _ _ Er) as [H1 [H2 _]].
    split; assumption.
  - vm_compute in Er. discriminate Er.
Defined.

Lemma try_block_short (E : Env) (company : string) (start end_ : date)
      (v : Z) (df : frame) :
  single_company_specific E (company ++ ".NS") start end_ = Ok df ->
  len df < 30 ->
  forall loc, try_block E company start end_ v <> Ok loc.
Proof.
  intros Hdf Hlen loc H.
  destruct (try_block_ok _ _ _ _ _ H)
    as [df' [first [last [back30 [yearly [Hdf' [_ [_ [H30 _]]]]]]]]].
  rewrite Hdf in Hdf'. injection Hdf' as <-.
  unfold iloc in H30. rewrite getitem_before_start in H30 by lia.
  discriminate H30.
Qed.

(** X11: a series of fewer than thirty rows never gives a usable record:
    the call returns the unusable record of the company, unless one of the
    helpers raises an exception the handler does not take, which then
    leaves the call. *)
Theorem short_series_is_unusable (E : Env) (company : string)
        (start end_ : date) (v : Z) (df : frame) :
  single_company_specific E (company ++ ".NS") start end_ = Ok df ->
  len df < 30 ->
  _parallel_momentum E company start end_ v = Ok (unusable_record company)
  \/ exists e, caught e = false
               /\ _parallel_momentum E company start end_ v = Raise e.
Proof.
  intros Hdf Hlen.
  destruct (try_block E company start end_ v) as [loc|e] eqn:Et.
  - exfalso. eapply try_block_short; eassumption.
  - rewrite (parallel_momentum_raise _ _ _ _ _ Et).
    destruct (caught e) eqn:Ec; [left; reflexivity|right].
    exists e. split; [exact Ec|reflexivity].
Qed.

Lemma short_series_is_unusable_witness :
  _parallel_momentum (example_env 4) "SHORT" year_start year_end 1
  = Ok (unusable_record "SHORT").
Proof.
  destruct (@short_series_is_unusable (example_env 4) "SHORT" year_start
              year_end 1 [mk_row (mk_date 2020 1 31) (Num 100)] eq_refl
              ltac:(vm_compute; reflexivity)) as [H|[e [_ H]]].
  - exact H.
  - vm_compute in H. discriminate H.
Defined.

Lemma starmap_ok_inv (A B : Type) (f : A -> result B) (pool : Pool)
      (sched : nat -> nat) (args : list A) (rs : list B) :
  1 <= processes pool ->
  starmap pool sched f args = Ok rs ->
  Forall2 (fun a b => f a = Ok b) args rs.
Proof.
  intros Hp H. apply run_chunk_Forall2.
  destruct (run_chunk f args) as [vs|e0] eqn:Erun.
  - rewrite (starmap_all_ok f pool sched args Hp Erun) in H. exact H.
  - destruct (starmap_some_raise f pool sched args Hp Erun) as [e [He _]].
    rewrite He in H. discriminate H.
Qed.

(** What a run of [momentum_strategy] that returned has done. *)
Lemma momentum_strategy_ok_inv (E : Env) (sched : nat -> nat)
      (data : list string) (end_date : string) (top : Z) (save : bool)
      (v : Z) (out : outcome (list MomentumRecord)) :
  momentum_strategy E sched data end_date top save v = Ok out ->
  exists end_ result_,
    parse_end_date E end_date = Ok end_
    /\ 2 <= cpu_count E
    /\ Forall2 (fun c r => _parallel_momentum E c (minus_one_year end_) end_ v
                           = Ok r) data result_
    /\ result_ <> []
    /\ rows_of out
       = head top (sort_values_descending return_yearly
                                          (dropna has_na result_)).
Proof.
  unfold momentum_strategy. intros H.
  destruct (parse_end_date E end_date) as [end_|] eqn:Ep; [|discriminate].
  cbn [bind] in H.
  destruct (Z.le_gt_cases 2 (cpu_count E)) as [Hc|Hc];
    [|rewrite Pool_init_raise in H by lia; discriminate].
  rewrite Pool_init_ok in H by lia. cbn [bind] in H.
  destruct (starmap _ sched _ data) as [result_|] eqn:Es; [|discriminate].
  cbn [bind] in H. apply starmap_ok_inv in Es; [|cbn; lia].
  exists end_, result_. split; [reflexivity|]. split; [exact Hc|].
  split; [exact Es|].
  unfold rank in H. destruct result_ as [|r0 rest]; [discriminate|].
  split; [discriminate|]. cbn [bind] in H.
  destruct save; injection H as <-; reflexivity.
Qed.


(** X12: on an empty company list the run ends with [KeyError]: the frame
    built from no record has no [return_yearly] column to sort by. *)
Theorem empty_company_list (E : Env) (sched : nat -> nat)
        (end_date : string) (top : Z) (save : bool) (v : Z) (end_ : date) :
  parse_end_date E end_date = Ok end_ ->
  2 <= cpu_count E ->
  momentum_strategy E sched [] end_date top save v = Raise KeyError.
Proof.
  intros Hparse Hcpu. unfold momentum_strategy. rewrite Hparse. cbn [bind].
  rewrite Pool_init_ok by lia. reflexivity.
Qed.

Lemma empty_company_list_witness :
  momentum_strategy (example_env 4) last_first [] "31/01/2020" 20 true 1
  = Raise KeyError.
Proof.
  apply (@empty_company_list (example_env 4) last_first "31/01/2020" 20 true 1
           year_end eq_refl).
  cbn. lia.
Defined.

Lemma dropna_all_unusable (companies : list string) :
  dropna has_na (map unusable_record companies) = [].
Proof.
  induction companies as [|c cs IH]; [reflexivity|]. cbn [map dropna filter].
  exact IH.
Qed.

Lemma head_nil (T : Type) (n : Z) : head n (@nil T) = [].
Proof. unfold head. destruct (n <? 0); apply firstn_nil. Qed.

(** X13: when the evaluation of every company of a non-empty list ends in
    the handler, the run does not fail: it leaves an empty table. *)
Theorem all_companies_unusable (E : Env) (sched : nat -> nat)
        (data : list string) (end_date : string) (top : Z) (save : bool)
        (v : Z) (end_ : date) :
  parse_end_date E end_date = Ok end_ ->
  2 <= cpu_count E ->
  data <> [] ->
  (forall c, In c data ->
             exists e, try_block E c (minus_one_year end_) end_ v = Raise e
                       /\ caught e = true) ->
  momentum_strategy E sched data end_date top save v
  = Ok ((if save then Saved else Returned) []).
Proof.
  intros Hparse Hcpu Hne Hall.
  rewrite (@momentum_strategy_returns E sched data end_date top save v end_
             (map unusable_record data)); try assumption.
  - rewrite dropna_all_unusable. cbn. rewrite head_nil. reflexivity.
  - clear Hne. induction data as [|c cs IH]; [constructor|].
    cbn [map]. constructor.
    + destruct (Hall c (or_introl eq_refl)) as [e [He Hc]].
      rewrite (parallel_momentum_raise _ _ _ _ _ He), Hc. reflexivity.
    + apply IH. intros c' H'. apply Hall. right. exact H'.
Qed.

Lemma all_companies_unusable_witness :
  momentum_strategy (example_env 4) in_order ["NOPE"; "SHORT"]%string
                    "today" 20 false 1
  = Ok (Returned []).
Proof.
  apply (@all_companies_unusable (example_env 4) in_order
           ["NOPE"; "SHORT"]%string "today" 20 false 1 year_end eq_refl).
  - cbn. lia.
  - discriminate.
  - intros c [<-|[<-|[]]].
    + exists KeyError. split; vm_compute; reflexivity.
    + exists IndexError. split; vm_compute; reflexivity.
Defined.

Lemma Forall2_In_r (A B : Type) (R : A -> B -> Prop) (l1 : list A)
      (l2 : list B) (b : B) :
  Forall2 R l1 l2 -> In b l2 -> exists a, In a l1 /\ R a b.
Proof.
  induction 1 as [|x y l1 l2 Hxy H IH]; intros Hin; [destruct Hin|].
  destruct Hin as [<-|Hin].
  - exists x. split; [left; reflexivity|exact Hxy].
  - destruct (IH Hin) as [a [Ha HR]]. exists a. split; [right|]; assumption.
Qed.

Lemma Forall2_length_eq (A B : Type) (R : A -> B -> Prop) (l1 : list A)
      (l2 : list B) :
  Forall2 R l1 l2 -> List.length l1 = List.length l2.
Proof. induction 1; cbn; congruence. Qed.

Lemma filter_length_le_all (T : Type) (f : T -> bool) (l : list T) :
  (List.length (filter f l) <= List.length l)%nat.
Proof.
  induction l as [|x t IH]; cbn [filter]; [lia|].
  destruct (f x); cbn [List.length]; lia.
Qed.

(** X14: whatever a run of [momentum_strategy] leaves, every row is the
    record of a company of the list, no row has an absent cell, and there
    are no more rows than companies, nor than [top_company_count] when
    that is not negative. *)
Theorem output_rows_come_from_the_list (E : Env) (sched : nat -> nat)
        (data : list string) (end_date : string) (top : Z) (save : bool)
        (v : Z) (out : outcome (list MomentumRecord)) :
  momentum_strategy E sched data end_date top save v = Ok out ->
  (forall r, In r (rows_of out) ->
             In (company r) data /\ has_na r = false)
  /\ (List.length (rows_of out) <= List.length data)%nat
  /\ (0 <= top -> len (rows_of out) <= top).
Proof.
  intros H.
  destruct (momentum_strategy_ok_inv _ _ _ _ _ _ _ H)
    as [end_ [result_ [_ [_ [Hall [_ Hrows]]]]]].
  assert (Hperm : Permutation
                    (sort_values_descending return_yearly
                                            (dropna has_na result_))
                    (dropna has_na result_))
    by apply sort_values_descending_perm.
  split; [|split].
  - intros r Hr. rewrite Hrows in Hr. apply head_In in Hr.
    apply (Permutation_in _ Hperm) in Hr. apply dropna_In in Hr.
    destruct Hr as [Hin Hna]. split; [|exact Hna].
    destruct (@Forall2_In_r _ _ _ _ _ _ Hall Hin) as [c [Hc Hrec]].
    destruct (record_invariants _ _ _ _ _ Hrec) as [<- _]. exact Hc.
  - rewrite Hrows. unfold head.
    assert (Hle : (List.length (sort_values_descending return_yearly
                                  (dropna has_na result_))
                   <= List.length data)%nat).
    { rewrite (Permutation_length Hperm), (@Forall2_length_eq _ _ _ _ _ Hall).
      apply filter_length_le_all. }
    destruct (top <? 0); rewrite length_firstn; lia.
  - intros Htop. rewrite Hrows, head_length by exact Htop. lia.
Qed.

Lemma output_rows_come_from_the_list_witness :
  exists out,
    momentum_strategy (example_env 4) last_first watch_list "today" 3 false 1
    = Ok out
    /\ (List.length (rows_of out) <= List.length watch_list)%nat
    /\ len (rows_of out) <= 3.
Proof.
  destruct (momentum_strategy (example_env 4) last_first watch_list "today"
                              3 false 1) as [out|e] eqn:Eo.
  - exists out. split; [reflexivity|].
    destruct (output_rows_come_from_the_list _ _ _ _ _ _ _ Eo)
      as [_ [H1 H2]].
    split; [exact H1|apply H2; lia].
  - vm_compute in Eo. discriminate Eo.
Defined.

Lemma StronglySorted_app_inv (T : Type) (R : T -> T -> Prop) (l1 l2 : list T) :
  StronglySorted R (l1 ++ l2) ->
  forall a b, In a l1 -> In b l2 -> R a b.
Proof.
  induction l1 as [|x t IH]; intros H a b Ha Hb; [destruct Ha|].
  cbn [app] in H. inversion H as [|? ? Ht Hx]; subst.
  destruct Ha as [<-|Ha].
  - rewrite Forall_forall in Hx. apply Hx. apply in_or_app. right. exact Hb.
  - apply IH; assumption.
Qed.

(** X15: the rows kept are the best: the usable records split into the
    rows of the output and the rows left out, and no row left out has a
    yearly return above that of a row kept. *)
Theorem kept_rows_are_the_best (E : Env) (sched : nat -> nat)
        (data : list string) (end_date : string) (top : Z) (save : bool)
        (v : Z) (out : outcome (list MomentumRecord)) :
  momentum_strategy E sched data end_date top save v = Ok out ->
  exists end_ result_ left_out,
    parse_end_date E end_date = Ok end_
    /\ Forall2 (fun c r => _parallel_momentum E c (minus_one_year end_) end_ v
                           = Ok r) data result_
    /\ Permutation (rows_of out ++ left_out) (dropna has_na result_)
    /\ forall kept out_row,
        In kept (rows_of out) -> In out_row left_out ->
        num_leb (return_yearly out_row) (return_yearly kept) = true.
Proof.
  intros H.
  destruct (momentum_strategy_ok_inv _ _ _ _ _ _ _ H)
    as [end_ [result_ [Hparse [_ [Hall [_ Hrows]]]]]].
  set (ranked := sort_values_descending return_yearly (dropna has_na result_))
    in *.
  assert (Hhead : exists k, head top ranked = firstn k ranked)
    by (unfold head; destruct (top <? 0); eexists; reflexivity).
  destruct Hhead as [k Hk].
  exists end_, result_, (skipn k ranked).
  split; [exact Hparse|]. split; [exact Hall|].
  rewrite Hrows, Hk. split.
  - rewrite firstn_skipn. apply sort_values_descending_perm.
  - intros kept out_row Hkept Hout.
    apply (@StronglySorted_app_inv _ (not_above return_yearly)
             (firstn k ranked) (skipn k ranked)); try assumption.
    rewrite firstn_skipn. apply sort_values_descending_sorted.
Qed.

Lemma kept_rows_are_the_best_witness :
  exists out left_out,
    momentum_strategy (example_env 4) in_order watch_list "today" 2 false 1
    = Ok out
    /\ List.length (rows_of out ++ left_out) = 4%nat
    /\ forall kept out_row,
        In kept (rows_of out) -> In out_row left_out ->
        num_leb (return_yearly out_row) (return_yearly kept) = true.
Proof.
  destruct (momentum_strategy (example_env 4) in_order watch_list "today"
                              2 false 1) as [out|e] eqn:Eo.
  - destruct (kept_rows_are_the_best _ _ _ _ _ _ _ Eo)
      as [end_ [result_ [left_out [Hp [Hall [Hperm Hbest]]]]]].
    exists out, left_out. split; [reflexivity|]. split; [|exact Hbest].
    rewrite (Permutation_length Hperm).
    cbn in Hp. injection Hp as <-.
    apply run_chunk_Forall2 in Hall. vm_compute in Hall.
    injection Hall as <-. reflexivity.
  - vm_compute in Eo. discriminate Eo.
Defined.

Lemma run_chunk_raise_of_In (A B : Type) (f : A -> result B) (l : list A)
      (a : A) (e : exn) :
  In a l -> f a = Raise e -> exists e0, run_chunk f l = Raise e0.
Proof.
  induction l as [|x t IH]; intros Hin Hf; [destruct Hin|].
  cbn [run_chunk]. destruct (f x) as [b|e1] eqn:Ex; cbn [bind];
    [|eexists; reflexivity].
  destruct Hin as [->|Hin]; [congruence|].
  destruct (IH Hin Hf) as [e0 ->]. eexists. reflexivity.
Qed.

(** X16: one evaluation that raises ends the whole run: when the date
    parses and the pool is made, and the evaluation of some company of the
    list raises, [momentum_strategy] raises the exception of one of the
    evaluations and leaves no table, whatever the completion order. *)
Theorem one_failure_ends_the_run (E : Env) (sched : nat -> nat)
        (data : list string) (end_date : string) (top : Z) (save : bool)
        (v : Z) (end_ : date) (c : string) (e : exn) :
  parse_end_date E end_date = Ok end_ ->
  2 <= cpu_count E ->
  In c data ->
  _parallel_momentum E c (minus_one_year end_) end_ v = Raise e ->
  exists c' e',
    In c' data
    /\ _parallel_momentum E c' (minus_one_year end_) end_ v = Raise e'
    /\ momentum_strategy E sched data end_date top save v = Raise e'.
Proof.
  intros Hparse Hcpu Hin He.
  destruct (run_chunk_raise_of_In
              (fun company => _parallel_momentum E company
                                (minus_one_year end_) end_ v) data c Hin He)
    as [e0 Hrun].
  destruct (@starmap_some_raise _ _ _ (mk_pool (cpu_count E - 1)) sched data e0
              ltac:(cbn; lia) Hrun) as [e' [Hs [c' [Hc' He']]]].
  exists c', e'. split; [exact Hc'|]. split; [exact He'|].
  unfold momentum_strategy. rewrite Hparse. cbn [bind].
  rewrite Pool_init_ok by lia. cbn [bind]. rewrite Hs. reflexivity.
Qed.

Lemma one_failure_ends_the_run_witness :
  exists c' e',
    In c' ["A"; "DOWN"; "C"]%string
    /\ _parallel_momentum (example_env 4) c' (minus_one_year year_end)
                          year_end 1 = Raise e'
    /\ momentum_strategy (example_env 4) last_first ["A"; "DOWN"; "C"]%string
                         "today" 20 false 1 = Raise e'.
Proof.
  apply (@one_failure_ends_the_run (example_env 4) last_first
           ["A"; "DOWN"; "C"]%string "today" 20 false 1 year_end
           "DOWN"%string OSError eq_refl).
  - cbn. lia.
  - right. left. reflexivity.
  - vm_compute. reflexivity.
Defined.

Lemma matches_none (R : Type) (rkey : R -> string) (k : string)
      (right_ : list R) :
  ~ In k (map rkey right_) ->
  filter (fun r => String.eqb k (rkey r)) right_ = [].
Proof.
  intros H. apply filter_none. intros r Hr. apply String.eqb_neq.
  intros ->. apply H. apply in_map. exact Hr.
Qed.

(** X17: the merge is an inner join: with no company twice on either
    side, its rows are, in the order of the momentum table, the momentum
    rows whose company has a row in the EMA table, each with that row; a
    company without an EMA row is left out, without error. *)
Theorem merge_keeps_common_companies (momentum_df : list MomentumRecord)
        (ema_df : list EMARecord) :
  NoDup (map company momentum_df) ->
  NoDup (map ema_company ema_df) ->
  exists rows,
    merge momentum_df (Some ema_df) = Ok rows
    /\ map fst rows
       = filter (fun l => mem (company l) (map ema_company ema_df)) momentum_df
    /\ Forall (fun lr => In (snd lr) ema_df
                         /\ ema_company (snd lr) = company (fst lr)) rows.
Proof.
  intros Hl Hr. unfold merge, merge_one_to_one.
  rewrite (proj2 (is_unique_NoDup _) Hl), (proj2 (is_unique_NoDup _) Hr).
  cbn [andb]. eexists. split; [reflexivity|].
  clear Hl. induction momentum_df as [|l t IH]; [split; [reflexivity|constructor]|].
  cbn [flat_map filter]. destruct IH as [IH1 IH2].
  destruct (mem (company l) (map ema_company ema_df)) eqn:Em.
  - assert (Hin : In (company l) (map ema_company ema_df)).
    { unfold mem in Em. apply existsb_exists in Em.
      destruct Em as [k [Hk Ek]]. apply String.eqb_eq in Ek. subst k.
      exact Hk. }
    destruct (@matches_unique _ ema_company (company l) ema_df Hr Hin)
      as [r [Hf Hkey]].
    assert (Hrin : In r ema_df).
    { assert (In r (filter (fun r0 => String.eqb (company l) (ema_company r0))
                           ema_df)) by (rewrite Hf; left; reflexivity).
      apply filter_In in H. apply H. }
    rewrite Hf. cbn [map app fst]. split; [f_equal; exact IH1|].
    constructor; [split; assumption|exact IH2].
  - assert (Hnin : ~ In (company l) (map ema_company ema_df)).
    { intros Hin. unfold mem in Em.
      assert (existsb (String.eqb (company l)) (map ema_company ema_df) = true).
      { apply existsb_exists. exists (company l).
        split; [exact Hin|apply String.eqb_refl]. }
      congruence. }
    rewrite (matches_none _ _ _ Hnin). cbn [map app]. split; assumption.
Qed.

Lemma merge_keeps_common_companies_witness :
  exists rows,
    merge momentum_table (Some [mk_ema_record "C" 2 1 "buy"]) = Ok rows
    /\ map (fun lr => company (fst lr)) rows = ["C"]%string.
Proof.
  destruct (@merge_keeps_common_companies momentum_table
              [mk_ema_record "C" 2 1 "buy"])
    as [rows [Hm [Hfst _]]].
  - apply NoDup_strings. vm_compute. reflexivity.
  - apply NoDup_strings. vm_compute. reflexivity.
  - exists rows. split; [exact Hm|].
    rewrite <- (map_map fst company), Hfst. vm_compute. reflexivity.
Defined.

End StrategyMore.

(** ** The volume indicator *)

Module VolumeIndicatorFacts.
Import Indicator IndicatorFacts VolumeIndicator MoreExamples.

Section Run.
Variable fetch : string -> date -> date -> result vframe.

Lemma getitem_ends (A : Type) (l : list A) :
  l <> [] -> exists first last, getitem l 0 = Ok first /\ getitem l (-1) = Ok last.
Proof.
  intros Hne.
  assert (Hlen : 1 <= len l).
  { unfold len. destruct l; [congruence|cbn [List.length]; lia]. }
  destruct (@getitem_nonneg A l 0 ltac:(lia)) as [first [_ Hf]].
  destruct (@getitem_nonneg A l (len l - 1) ltac:(lia)) as [last [Hn Hl]].
  exists first, last. split; [exact Hf|].
  unfold getitem. cbn [Z.ltb Z.compare].
  replace (-1 + len l) with (len l - 1) by lia.
  destruct (Z.ltb_spec (len l - 1) 0); [lia|].
  destruct (Z.leb_spec (len l) (len l - 1)); [lia|]. cbn [orb].
  rewrite Hn. reflexivity.
Qed.

Lemma getitem_empty (A : Type) (i : Z) : getitem (@nil A) i = Raise IndexError.
Proof.
  unfold getitem. cbn [len List.length Z.of_nat].
  destruct (i <? 0); [rewrite Z.add_0_r|];
    destruct (Z.ltb_spec i 0); cbn [orb]; try reflexivity;
    destruct (Z.leb_spec 0 i); try reflexivity; lia.
Qed.

Lemma volume_row_ok (company : string) (start end_ : date) (df : vframe) :
  fetch (company ++ ".NS") start end_ = Ok df -> df <> [] ->
  exists r, volume_row fetch company start end_ = Ok r
            /\ volume_row_of company df r.
Proof.
  intros Hf Hne. destruct (getitem_ends Hne) as [first [last [H0 H1]]].
  unfold volume_row. rewrite Hf. cbn [bind]. rewrite H1, H0. cbn [bind].
  eexists. split; [reflexivity|]. exists first, last. repeat split; assumption.
Qed.

Lemma volume_rows_ok (frames : string -> vframe) (start end_ : date)
      (companies : list string) :
  (forall c, In c companies ->
             fetch (c ++ ".NS") start end_ = Ok (frames c) /\ frames c <> []) ->
  forall acc,
  exists rows,
    volume_rows fetch companies start end_ acc = Ok (acc ++ rows)%list
    /\ Forall2 (fun c r => volume_row_of c (frames c) r) companies rows.
Proof.
  induction companies as [|c cs IH]; intros H acc.
  - exists []. rewrite app_nil_r. split; [reflexivity|constructor].
  - destruct (H c (or_introl eq_refl)) as [Hf Hne].
    destruct (@volume_row_ok _ _ _ _ Hf Hne) as [r [Hr Hrow]].
    destruct (IH (fun c' H' => H c' (or_intror H')) (acc ++ [r])%list)
      as [rows [Hrun Hrows]].
    exists (r :: rows). cbn [volume_rows]. rewrite Hr. cbn [bind].
    rewrite Hrun, <- app_assoc. split; [reflexivity|].
    constructor; assumption.
Qed.

(** X18: when the provider returns a frame with at least one row for
    every company, the table has one row per company, in the order of the
    list; each row carries the company's last volume and close, the mean of
    its volumes, its first date as day-month-year and its last date as
    month-day-year, and its action is set exactly when the last volume is
    above the mean. *)
Theorem volume_table (E : Env) (self : Indicator) (duration : Z)
        (frames : string -> vframe) (companies : list string) :
  data self = Some companies ->
  (forall c, In c companies ->
             fetch (c ++ ".NS") (days_before (now E) duration) (now E)
             = Ok (frames c)
             /\ frames c <> []) ->
  exists rows,
    volume_indicator_n_days fetch E self duration = Ok (rows, tt)
    /\ Forall2 (fun c r => volume_row_of c (frames c) r) companies rows
    /\ map vol_company rows = companies.
Proof.
  intros Hdata H. unfold volume_indicator_n_days. rewrite Hdata.
  destruct (@volume_rows_ok frames _ _ companies H []) as [rows [Hrun Hrows]].
  exists rows. rewrite Hrun. cbn [bind app]. split; [reflexivity|].
  split; [exact Hrows|].
  clear -Hrows. induction Hrows as [|c r cs rs Hr _ IH]; [reflexivity|].
  cbn [map]. f_equal; [|exact IH].
  destruct Hr as [first [last [_ [_ ->]]]]. reflexivity.
Qed.

Lemma sum_constant (c : Q) (l : list Q) :
  Forall (fun x => x == c)%Q l ->
  (sum l == inject_Z (len l) * c)%Q.
Proof.
  intros H.
  assert (Hb : Forall (fun x => c <= x /\ x <= c)%Q l).
  { eapply Forall_impl; [|exact H]. intros x Hx. cbn beta in Hx.
    rewrite Hx. split; apply Qle_refl. }
  destruct (@IndicatorMore.fold_sum_bounds c c l Hb 0%Q) as [H1 H2].
  unfold sum. apply Qle_antisym; lra.
Qed.

(** X19: a company whose volumes are all the same whole number of shares
    is not flagged.  The number is kept small enough for its sum over the
    rows to stay within 2^53, where the sums and the quotient of the code
    are exact. *)
Theorem constant_volume_not_flagged (company : string) (start end_ : date)
        (df : vframe) (shares : Z) (r : VolumeRecord) :
  fetch (company ++ ".NS") start end_ = Ok df ->
  0 <= shares ->
  shares * len df <= 2 ^ 53 ->
  Forall (fun x => Volume x = Num (inject_Z shares)) df ->
  volume_row fetch company start end_ = Ok r ->
  vol_action r = false.
Proof.
  intros Hf _ _ Hwhole Hr. set (c := inject_Z shares).
  assert (Hall : Forall (fun x => exists q, Volume x = Num q /\ (q == c)%Q) df).
  { eapply Forall_impl; [|exact Hwhole]. intros x Hx. cbn beta in Hx.
    exists c. split; [exact Hx|apply Qeq_refl]. }
  clear Hwhole.
  destruct df as [|x0 rest] eqn:Edf.
  { unfold volume_row in Hr. rewrite Hf in Hr. cbn [bind] in Hr.
    rewrite getitem_empty in Hr. discriminate Hr. }
  rewrite <- Edf in *.
  assert (Hne : df <> []) by (rewrite Edf; discriminate).
  destruct (@volume_row_ok _ _ _ _ Hf Hne) as [r' [Hr' [first [last [_ [Hl ->]]]]]].
  rewrite Hr in Hr'. injection Hr' as ->. cbn [vol_action].
  assert (Hlast : exists q, Volume last = Num q /\ (q == c)%Q).
  { rewrite Forall_forall in Hall. apply Hall.
    eapply IndicatorMore.getitem_In. exact Hl. }
  destruct Hlast as [q [-> Hq]].
  assert (Hpv : Forall (fun x => x == c)%Q (present_volumes df)
                /\ present_volumes df <> []).
  { clear -Hall Hne. induction Hall as [|x t [qx [Hx Hqx]] Ht IH];
      [congruence|].
    unfold present_volumes. cbn [flat_map]. rewrite Hx. cbn [app].
    split; [|discriminate]. constructor; [exact Hqx|].
    destruct t as [|y t']; [constructor|].
    apply IH. discriminate. }
  destruct Hpv as [Hconst Hpne].
  unfold mean. destruct (present_volumes df) as [|v vs] eqn:Epv; [congruence|].
  rewrite <- Epv in *. cbn [num_gt]. apply negb_false_iff, Qle_bool_iff.
  rewrite (sum_constant Hconst), Hq.
  assert (Hpos : ~ (inject_Z (len (present_volumes df)) == 0)%Q).
  { rewrite Epv. unfold len. cbn [List.length]. rewrite Nat2Z.inj_succ.
    intros H0. unfold Qeq in H0. cbn in H0. lia. }
  apply Qle_lteq. right. field. exact Hpos.
Qed.

(** X20: nothing takes a failed fetch or an empty frame: when the
    provider raises for a company, or returns no row for it, the companies
    before it having frames with rows, the call ends with that exception,
    or with [IndexError], and no table is written. *)
Theorem volume_failure_ends_the_run (E : Env) (self : Indicator)
        (duration : Z) (frames : string -> vframe)
        (before after : list string) (c : string) :
  data self = Some (before ++ c :: after)%list ->
  (forall c', In c' before ->
              fetch (c' ++ ".NS") (days_before (now E) duration) (now E)
              = Ok (frames c')
              /\ frames c' <> []) ->
  (forall e,
      fetch (c ++ ".NS") (days_before (now E) duration) (now E) = Raise e ->
      volume_indicator_n_days fetch E self duration = Raise e)
  /\ (fetch (c ++ ".NS") (days_before (now E) duration) (now E) = Ok [] ->
      volume_indicator_n_days fetch E self duration = Raise IndexError).
Proof.
  intros Hdata Hbefore.
  assert (Hrows : forall e,
             volume_row fetch c (days_before (now E) duration) (now E)
             = Raise e ->
             forall acc,
               volume_rows fetch (before ++ c :: after)
                           (days_before (now E) duration) (now E) acc
               = Raise e).
  { intros e He. clear Hdata.
    induction before as [|b bs IH]; intros acc.
    - cbn [app volume_rows]. rewrite He. reflexivity.
    - destruct (Hbefore b (or_introl eq_refl)) as [Hf Hne].
      destruct (@volume_row_ok _ _ _ _ Hf Hne) as [r [Hr _]].
      cbn [app volume_rows]. rewrite Hr. cbn [bind]. apply IH.
      intros c' H'. apply Hbefore. right. exact H'. }
  split.
  - intros e He. unfold volume_indicator_n_days. rewrite Hdata.
    rewrite (Hrows e); [reflexivity|].
    unfold volume_row. rewrite He. reflexivity.
  - intros He. unfold volume_indicator_n_days. rewrite Hdata.
    rewrite (Hrows IndexError); [reflexivity|].
    unfold volume_row. rewrite He. reflexivity.
Qed.

End Run.
End VolumeIndicatorFacts.

(** ** The windows *)

Module CalendarFacts.
Import VolumeIndicator More MoreExamples.

Lemma days_before_month_step (y m : Z) :
  1 <= m < 12 ->
  days_before_month y (m + 1) = days_before_month y m + days_in_month y m.
Proof.
  intros H.
  assert (Hm : m = 1 \/ m = 2 \/ m = 3 \/ m = 4 \/ m = 5 \/ m = 6 \/ m = 7
               \/ m = 8 \/ m = 9 \/ m = 10 \/ m = 11) by lia.
  unfold days_before_month, days_in_month.
  destruct (is_leap y);
    repeat (destruct Hm as [->|Hm]; [reflexivity|]); subst; reflexivity.
Qed.

Lemma days_before_year_step (y : Z) :
  days_before_year (y + 1)
  = days_before_year y + 365 + (if is_leap y then 1 else 0).
Proof.
  unfold days_before_year, is_leap. cbn zeta.
  replace (y + 1 - 1) with y by lia.
  destruct (Z.eqb_spec (y mod 4) 0); destruct (Z.eqb_spec (y mod 100) 0);
    destruct (Z.eqb_spec (y mod 400) 0); cbn [negb andb orb];
    Z.to_euclidean_division_equations; lia.
Qed.

Lemma pred_day_ordinal (d : date) :
  valid_date d ->
  valid_date (pred_day d) /\ toordinal (pred_day d) = toordinal d - 1.
Proof.
  destruct d as [y m dd]. unfold valid_date, pred_day, toordinal.
  cbn [year month day]. intros [Hm Hd].
  destruct (Z.ltb_spec 1 dd).
  - cbn [year month day]. split; [split; lia|lia].
  - assert (dd = 1) by lia. subst dd.
    destruct (Z.ltb_spec 1 m).
    + cbn [year month day].
      pose proof (@days_before_month_step y (m - 1) ltac:(lia)) as Hs.
      replace (m - 1 + 1) with m in Hs by lia.
      assert (1 <= days_in_month y (m - 1)).
      { unfold days_in_month.
        destruct (m - 1 =? 2); [destruct (is_leap y); lia|].
        destruct ((m - 1 =? 4) || (m - 1 =? 6) || (m - 1 =? 9) || (m - 1 =? 11));
          lia. }
      split; [split; lia|lia].
    + assert (m = 1) by lia. subst m. cbn [year month day].
      pose proof (days_before_year_step (y - 1)) as Hs.
      replace (y - 1 + 1) with y in Hs by lia.
      split; [split; [lia|change (days_in_month (y - 1) 12) with 31; lia]|].
      change (days_before_month (y - 1) 12)
        with (334 + (if is_leap (y - 1) then 1 else 0)).
      change (days_before_month y 1) with (0 + 0).
      destruct (is_leap (y - 1)); lia.
Qed.

Lemma days_before_ordinal (n : nat) (d : date) :
  valid_date d ->
  valid_date (Nat.iter n pred_day d)
  /\ toordinal (Nat.iter n pred_day d) = toordinal d - Z.of_nat n.
Proof.
  intros Hd. induction n as [|n [IHv IHo]].
  - cbn. split; [exact Hd|lia].
  - cbn [Nat.iter nat_rect]. change (nat_rect _ d (fun _ => pred_day) n) with (Nat.iter n pred_day d).
    destruct (pred_day_ordinal IHv) as [Hv Ho]. split; [exact Hv|]. lia.
Qed.

Theorem window_length (d : date) (n : Z) :
  valid_date d -> 0 <= n -> days_between d (days_before d n) = n.
Proof.
  intros Hd Hn. unfold days_between, days_before.
  destruct (Z.ltb_spec n 0); [lia|].
  destruct (days_before_ordinal (Z.to_nat n) Hd) as [_ ->]. lia.
Qed.

Lemma leap_years_apart (y : Z) : is_leap y = true -> is_leap (y - 1) = false.
Proof.
  unfold is_leap. intros H. apply andb_true_iff in H. destruct H as [H4 _].
  apply Z.eqb_eq in H4.
  destruct (Z.eqb_spec ((y - 1) mod 4) 0) as [E|E]; [|reflexivity].
  exfalso. Z.to_euclidean_division_equations. lia.
Qed.

Lemma days_before_month_leap (y m : Z) :
  1 <= m <= 12 ->
  days_before_month y m
  = days_before_month (y - 1) m
    + (if 2 <? m then (if is_leap y then 1 else 0)
                      - (if is_leap (y - 1) then 1 else 0)
       else 0).
Proof.
  intros Hm. unfold days_before_month.
  destruct (2 <? m); cbn [andb];
    destruct (is_leap y), (is_leap (y - 1)); lia.
Qed.

Theorem year_window (d : date) :
  valid_date d ->
  days_between d (minus_one_year d) = 365
  \/ days_between d (minus_one_year d) = 366.
Proof.
  destruct d as [y m dd]. unfold valid_date, days_between, minus_one_year,
    toordinal. cbn [year month day]. intros [Hm Hd].
  pose proof (days_before_year_step (y - 1)) as Hy.
  replace (y - 1 + 1) with y in Hy by lia.
  rewrite (days_before_month_leap y Hm), Hy.
  unfold days_in_month in *.
  destruct (is_leap y) eqn:Ely.
  - rewrite (leap_years_apart _ Ely).
    destruct (Z.eqb_spec m 2);
      destruct ((m =? 4) || (m =? 6) || (m =? 9) || (m =? 11));
      destruct (Z.ltb_spec 2 m); lia.
  - destruct (is_leap (y - 1)); destruct (Z.eqb_spec m 2);
      destruct ((m =? 4) || (m =? 6) || (m =? 9) || (m =? 11));
      destruct (Z.ltb_spec 2 m); lia.
Qed.

End CalendarFacts.

(** ** Runs of the further examples *)

Module MoreWitnesses.

Import Indicator IndicatorObject Strategy Examples VolumeIndicator More.
Import MoreExamples IndicatorFacts IndicatorMore IndicatorObjectFacts.
Import StrategyFacts StrategyMore VolumeIndicatorFacts CalendarFacts.

Lemma ema_frames_fetched (c : string) :
  In c ["LONG"; "NEW"; "RISE"]%string ->
  single_company_complete ema_env (c ++ ".NS") = Ok (ema_frames c).
Proof.
  intros [<-|[<-|[<-|[]]]]; reflexivity.
Qed.

Lemma ema_frames_complete (c : string) :
  In c ["LONG"; "NEW"; "RISE"]%string ->
  no_close_missing (ema_frames c) = true.
Proof.
  intros [<-|[<-|[<-|[]]]]; vm_compute; reflexivity.
Qed.

Lemma ema_table_companies_witness :
  exists table,
    ema_indicator ema_env listed [("verbosity"%string, ArgInt 0)]
    = Ok (table, tt)
    /\ map ema_company table = ["LONG"; "RISE"]%string.
Proof.
  destruct (@ema_table_companies ema_env listed ema_frames
              ["LONG"; "NEW"; "RISE"]%string
              [("verbosity"%string, ArgInt 0)] eq_refl eq_refl
              ema_frames_fetched ema_frames_complete)
    as [table [Hrun Hnames]].
  exists table. split; [exact Hrun|]. rewrite Hnames. vm_compute. reflexivity.
Defined.

Lemma ema_table_rows_witness :
  exists table,
    ema_indicator ema_env listed [] = Ok (table, tt)
    /\ Forall (ema_row_of ema_frames) table.
Proof.
  destruct (@ema_rows_partition ema_env ema_frames
              ["LONG"; "NEW"; "RISE"]%string ema_frames_fetched [] [])
    as [table [Hrun _]].
  assert (Erun : ema_indicator ema_env listed [] = Ok (table, tt)).
  { unfold ema_indicator, listed. cbn [bind_keywords forallb andb bind data].
    rewrite Hrun. reflexivity. }
  exists table. split; [exact Erun|].
  exact (@ema_table_rows ema_env listed ema_frames
           ["LONG"; "NEW"; "RISE"]%string [] table eq_refl
           ema_frames_fetched ema_frames_complete Erun).
Defined.

Lemma ema_fetch_failure_propagates_witness :
  ema_indicator ema_env listed_with_failure [] = Raise OSError.
Proof.
  apply (@ema_fetch_failure_propagates ema_env listed_with_failure ema_frames
           ["LONG"; "NEW"]%string ["RISE"]%string "DOWN"%string OSError []
           eq_refl eq_refl).
  - intros c [<-|[<-|[]]]; reflexivity.
  - reflexivity.
Defined.

Lemma ema_indicator_without_yaml_witness :
  exists self,
    Indicator_init ema_env [("path"%string, ArgStr "data/company_list.yml")]
    = Ok self
    /\ data self = None
    /\ ema_indicator ema_env self [] = Raise AttributeError.
Proof.
  apply (@ema_indicator_without_yaml ema_env "data/company_list.yml" []);
    reflexivity.
Defined.

Lemma volume_frames_fetched (c : string) :
  In c ["BUSY"; "FLAT"]%string ->
  volume_provider (c ++ ".NS") (days_before (now (example_env 4)) 90)
                  (now (example_env 4))
  = Ok (volume_frames c)
  /\ volume_frames c <> [].
Proof.
  intros [<-|[<-|[]]]; split; try reflexivity; discriminate.
Qed.

Lemma volume_table_witness :
  exists rows,
    volume_indicator_n_days volume_provider (example_env 4) watched 90
    = Ok (rows, tt)
    /\ map vol_company rows = ["BUSY"; "FLAT"]%string
    /\ map vol_action rows = [true; false].
Proof.
  destruct (@volume_table volume_provider (example_env 4) watched 90
              volume_frames ["BUSY"; "FLAT"]%string eq_refl
              volume_frames_fetched) as [rows [Hrun [_ Hnames]]].
  exists rows. split; [exact Hrun|]. split; [exact Hnames|].
  assert (Hv : volume_indicator_n_days volume_provider (example_env 4) watched 90
               = Ok (match volume_rows volume_provider ["BUSY"; "FLAT"]%string
                                       (days_before (now (example_env 4)) 90)
                                       (now (example_env 4)) [] with
                     | Ok rs => rs
                     | Raise _ => []
                     end, tt))
    by (vm_compute; reflexivity).
  rewrite Hv in Hrun. injection Hrun as <-. vm_compute. reflexivity.
Defined.

Lemma constant_volume_not_flagged_witness :
  exists r,
    volume_row volume_provider "FLAT" year_start year_end = Ok r
    /\ vol_action r = false.
Proof.
  destruct (volume_row volume_provider "FLAT" year_start year_end)
    as [r|e] eqn:Er.
  - exists r. split; [reflexivity|].
    apply (@constant_volume_not_flagged volume_provider "FLAT" year_start
             year_end (volume_frames "FLAT") 5 r eq_refl);
      [lia|vm_compute; discriminate| |exact Er].
    repeat constructor.
  - vm_compute in Er. discriminate Er.
Defined.

Lemma volume_failure_ends_the_run_witness :
  volume_indicator_n_days volume_provider (example_env 4) watched_with_empty 90
  = Raise IndexError.
Proof.
  apply (proj2 (@volume_failure_ends_the_run volume_provider (example_env 4)
                  watched_with_empty 90 volume_frames ["BUSY"%string]
                  ["FLAT"%string] "EMPTY"%string eq_refl
                  (fun c' H' => @volume_frames_fetched c'
                                  (match H' with
                                   | or_introl E => or_introl E
                                   | or_intror F => match F with end
                                   end)))).
  reflexivity.
Defined.

Lemma window_length_witness :
  days_between (mk_date 2020 3 1) (days_before (mk_date 2020 3 1) 90) = 90.
Proof.
  apply window_length; [|lia]. unfold valid_date. cbn. lia.
Defined.

Lemma year_window_witness :
  days_between (mk_date 2020 2 29) (minus_one_year (mk_date 2020 2 29)) = 365
  \/ days_between (mk_date 2020 2 29) (minus_one_year (mk_date 2020 2 29)) = 366.
Proof.
  apply year_window. unfold valid_date. cbn. lia.
Defined.

End MoreWitnesses.
